(** * cate: batch image compressor (compress.js)

    A shallow embedding of the compression driver: command-line
    configuration, the quality estimator, the resize planner, the
    compression search of [compressWithRatio] and the batch loop of
    [compressImages], followed by the properties proved about them.

    Modelling conventions.
    - JavaScript numbers that hold byte counts, qualities and counters are
      integers in the program and are modelled in [Z].  The size ratio and
      the estimator's arithmetic are modelled in exact rationals [Q]:
      [0.8] is [4/5], [66.7] is [667/10], and [Math.round x] is
      [floor (x + 1/2)].  IEEE-754 rounding of the intermediate doubles is
      not modelled, so on an arbitrary double the estimate of the program
      can differ by one from the exact one; what is stated about the seed
      of a file is stated for the ratios the program forms, the target
      divided by a positive file size.
    - The image library (sharp), the file system and the console are the
      environment.  Their answers are given by a [System] record of
      oracles.  The trace of [Event]s records, in order, every line the
      program prints, every encode, every write and every removal.
    - Strings are byte strings; command-line arguments and file names are
      taken to be ASCII. *)

From Stdlib Require Import ZArith QArith Qround List String Ascii Bool Lia.
From Stdlib Require Import Sorted Lqa.
From Equations Require Import Equations.
From Equations.Prop Require Import Logic.
Import ListNotations.

Local Open Scope string_scope.
Local Open Scope list_scope.
Local Open Scope Z_scope.

(** ** JavaScript values and string built-ins *)

(** A number produced by [parseInt]: an integer or [NaN]. *)
Inductive jsnum : Type :=
| NaN
| Int (z : Z).

(** A variable that holds [null] or a value is an [option]: [None] is
    [null].  Truthiness of [null] / number: [null], [NaN] and [0] are falsy. *)
Definition truthy_num (v : option jsnum) : bool :=
  match v with
  | Some (Int z) => negb (z =? 0)
  | _ => false
  end.

(** Truthiness of [null] / string: [null] and the empty string are falsy. *)
Definition truthy_str (v : option string) : bool :=
  match v with
  | Some EmptyString => false
  | Some _ => true
  | None => false
  end.

Definition startsWith (s p : string) : bool := String.prefix p s.

(** [s.split(sep)] for a one-character separator. *)
Fixpoint split (sep : ascii) (s : string) : list string :=
  match s with
  | EmptyString => [EmptyString]
  | String c r =>
      if Ascii.eqb c sep then EmptyString :: split sep r
      else match split sep r with
           | [] => [String c EmptyString]
           | h :: t => String c h :: t
           end
  end.

Definition lowerChar (c : ascii) : ascii :=
  let n := nat_of_ascii c in
  if (Nat.leb 65 n && Nat.leb n 90)%bool then ascii_of_nat (n + 32) else c.

(** [s.toLowerCase()] on ASCII text. *)
Fixpoint toLowerCase (s : string) : string :=
  match s with
  | EmptyString => EmptyString
  | String c r => String (lowerChar c) (toLowerCase r)
  end.

Definition isWhiteSpace (c : ascii) : bool :=
  let n := nat_of_ascii c in
  (Nat.eqb n 9 || Nat.eqb n 10 || Nat.eqb n 11 || Nat.eqb n 12
   || Nat.eqb n 13 || Nat.eqb n 32)%bool.

Fixpoint trimStart (s : string) : string :=
  match s with
  | EmptyString => EmptyString
  | String c r => if isWhiteSpace c then trimStart r else s
  end.

(** Value of a character read as a digit (0-9, a-z, A-Z). *)
Definition digitValue (c : ascii) : option Z :=
  let n := Z.of_nat (nat_of_ascii c) in
  if (48 <=? n) && (n <=? 57) then Some (n - 48)
  else if (97 <=? n) && (n <=? 122) then Some (n - 87)
  else if (65 <=? n) && (n <=? 90) then Some (n - 55)
  else None.

(** The longest prefix of radix-[R] digits, as a number; [None] when the
    prefix is empty. *)
Fixpoint leadingDigits (R : Z) (acc : option Z) (s : string) : option Z :=
  match s with
  | EmptyString => acc
  | String c r =>
      match digitValue c with
      | Some d =>
          if d <? R
          then leadingDigits R
                 (Some (match acc with Some a => a * R + d | None => d end)) r
          else acc
      | None => acc
      end
  end.

(** [parseInt(s)] with no radix argument: leading white space, an optional
    sign, an optional [0x] prefix, then digits.  The result is the exact
    integer; JavaScript rounds it to a double, which differs above 2^53. *)
Definition parseInt (s : string) : jsnum :=
  let s1 := trimStart s in
  let '(sign, s2) :=
    match s1 with
    | String "-" r => (-1, r)
    | String "+" r => (1, r)
    | _ => (1, s1)
    end in
  let '(R, s3) :=
    match s2 with
    | String "0" (String "x" r) => (16, r)
    | String "0" (String "X" r) => (16, r)
    | _ => (10, s2)
    end in
  match leadingDigits R None s3 with
  | Some m => Int (sign * m)
  | None => NaN
  end.

Fixpoint lastDot (s : string) : option string :=
  match s with
  | EmptyString => None
  | String c r =>
      match lastDot r with
      | Some e => Some e
      | None => if Ascii.eqb c "." then Some s else None
      end
  end.

(** [path.extname(name)] for a directory entry name (no separator in it):
    the text from the last dot on, or the empty string when there is no
    dot, when the only dot opens the name, or when the name is [..]. *)
Definition extname (name : string) : string :=
  match name with
  | String "." r =>
      match lastDot r with
      | Some e => if String.eqb r "." then EmptyString else e
      | None => EmptyString
      end
  | _ => match lastDot name with Some e => e | None => EmptyString end
  end.

(** [s.slice(1)] *)
Definition slice1 (s : string) : string :=
  match s with
  | EmptyString => EmptyString
  | String _ r => r
  end.

(** [s.slice(0, -n)]; [s.slice(0, -0)] is the empty string. *)
Definition sliceDropLast (s : string) (n : nat) : string :=
  match n with
  | O => EmptyString
  | _ => String.substring 0 (String.length s - n) s
  end.

(** ** Configuration: the module-level variables (lines 5-30) *)

Definition TARGET_SIZE : Z := 100 * 1024.

Record Config : Type := {
  targetWidth : option jsnum;
  targetHeight : option jsnum;
  targetFormat : option string;
  MAX_DIMENSION : Z
}.

Definition initialConfig : Config :=
  {| targetWidth := None; targetHeight := None; targetFormat := None;
     MAX_DIMENSION := 1920 |}.

(** The body of [args.forEach].  [arg.split('=')[1]] is defined in each
    branch because [arg] starts with a key and [=]. *)
Definition parseArg (c : Config) (arg : string) : Config :=
  let field1 := nth 1 (split "=" arg) EmptyString in
  if startsWith arg "w=" then
    {| targetWidth := Some (parseInt field1); targetHeight := targetHeight c;
       targetFormat := targetFormat c; MAX_DIMENSION := MAX_DIMENSION c |}
  else if startsWith arg "h=" then
    {| targetWidth := targetWidth c; targetHeight := Some (parseInt field1);
       targetFormat := targetFormat c; MAX_DIMENSION := MAX_DIMENSION c |}
  else if startsWith arg "t=" then
    {| targetWidth := targetWidth c; targetHeight := targetHeight c;
       targetFormat := Some (toLowerCase field1);
       MAX_DIMENSION := MAX_DIMENSION c |}
  else c.

(** Lines 12-30: parse the arguments, then switch the default bound off
    when a width or a height was given. *)
Definition loadConfig (args : list string) : Config :=
  let c := fold_left parseArg args initialConfig in
  if truthy_num (targetWidth c) || truthy_num (targetHeight c)
  then {| targetWidth := targetWidth c; targetHeight := targetHeight c;
          targetFormat := targetFormat c; MAX_DIMENSION := 0 |}
  else c.

(** ** Quality estimator (lines 64-77) *)

(** [Math.round]: the nearest integer, halves rounded up. *)
Definition Math_round (x : Q) : Z := Qfloor (x + (1 # 2)).

Definition estimateQuality (sizeRatio : Q) : Z :=
  if Qle_bool 0.8 sizeRatio then
    Math_round (85 + (sizeRatio - 0.8) * 50)
  else if Qle_bool 0.5 sizeRatio then
    Math_round (70 + (sizeRatio - 0.5) * 50)
  else if Qle_bool 0.3 sizeRatio then
    Math_round (50 + (sizeRatio - 0.3) * 100)
  else
    Math_round (30 + sizeRatio * 66.7).

(** Lines 88-92 of [compressWithRatio]: the ratio, the estimate and the
    clamp that gives the first quality.  The division is that of [Q]; at
    [originalSize = 0], where JavaScript gives [Infinity], it gives 0, and
    the batch loop never calls [compressWithRatio] with that size. *)
Definition sizeRatioOf (originalSize : Z) : Q :=
  inject_Z TARGET_SIZE / inject_Z originalSize.

Definition clampQuality (estimatedQuality : Z) : Z :=
  Z.max 10 (Z.min 95 estimatedQuality).

Definition seedQuality (sizeRatio : Q) : Z :=
  clampQuality (estimateQuality sizeRatio).

(** ** The image library, the file system and the console *)

(** A buffer of encoded bytes; the driver only reads its length. *)
Record Buffer : Type := { buf_length : Z }.

Inductive SharpInput : Type :=
| FromPath (path : string)
| FromBuffer (b : Buffer).

Inductive Fit : Type := fill | inside.

(** The options object given to [.resize]; [None] is an absent key.
    sharp enlarges unless [withoutEnlargement] is set. *)
Record ResizeOptions : Type := {
  width : option jsnum;
  height : option jsnum;
  fit : option Fit;
  withoutEnlargement : option bool
}.

(** A sharp instance: its input and the resize applied to it, if any. *)
Record Sharp : Type := {
  input : SharpInput;
  resizing : option ResizeOptions
}.

Definition sharp (i : SharpInput) : Sharp :=
  {| input := i; resizing := None |}.

Inductive Encoder : Type := png | webp | tiff | jpeg.

(** The options object given to the encoder: [{quality}] or
    [{compressionLevel}]. *)
Inductive FormatOptions : Type :=
| quality_opt (q : Z)
| compressionLevel_opt (level : Z).

Record EncodeCall : Type := {
  instance : Sharp;
  encoder : Encoder;
  options : FormatOptions
}.

(** The environment.  [None] and [false] stand for a thrown error or a
    rejected promise.  [toBuffer n c] answers the [n]-th encode of a file
    ([0] for the first attempt), so the answers may differ between
    attempts; [statSync] gives [stats.size], a byte count. *)
Record System : Type := {
  readdirSync : string -> option (list string);
  statSync : string -> option N;
  metadata : SharpInput -> option (Z * Z);
  resizeAccepts : ResizeOptions -> bool;
  toBuffer : Z -> EncodeCall -> option Buffer;
  writeFileSync : string -> Buffer -> bool;
  unlinkSync : string -> bool
}.

(** Console lines the driver prints, by the statement that prints them. *)
Inductive Message : Type :=
| msg_size_error (file : string)
| msg_dimensions_error (file : string)
| msg_attempt (n quality size : Z)
| msg_warning (quality : Z)
| msg_compress_error (file : string)
| msg_none_found
| msg_skip_unreadable (file : string)
| msg_skip_small (file : string) (size : Z)
| msg_processing (file : string) (size : Z)
| msg_compressed (file : string) (newSize : Z)
| msg_failed (file : string)
| msg_summary (processedCount skippedCount : Z)
| msg_fatal
| msg_original_dimensions (width height : Z)
| msg_estimated (quality : Z) (sizeRatio : Q)
| msg_new_dimensions (width height : Z)
| msg_banner
| msg_scanning
| msg_resize_exact (width height : option jsnum)
| msg_resize_width (width : option jsnum)
| msg_resize_height (height : option jsnum)
| msg_resize_max (maxDimension : Z)
| msg_resize_disabled
| msg_found (count : nat)
| msg_complete.

(** What the program does, in order.  [ev_compress f sz] is a call of
    [compressWithRatio]; [ev_encode n q c r] is the [n]-th encode of a file,
    made while the driver's quality variable holds [q], with call [c] and
    answer [r]. *)
Inductive Event : Type :=
| ev_console (m : Message)
| ev_compress (filePath : string) (originalSize : Z)
| ev_encode (n quality : Z) (call : EncodeCall) (result : option Buffer)
| ev_write (path : string) (b : Buffer)
| ev_unlink (path : string).

(** ** Effects: a trace of events and an optional exception *)

Definition M (A : Type) : Type := (list Event * option A)%type.

Definition ret {A} (a : A) : M A := ([], Some a).

Definition throw {A} : M A := ([], None).

Definition bind {A B} (m : M A) (f : A -> M B) : M B :=
  match m with
  | (t, Some a) => let (t', r) := f a in (t ++ t', r)
  | (t, None) => (t, None)
  end.

Definition emit (e : Event) : M unit := ([e], Some tt).

Definition log (m : Message) : M unit := emit (ev_console m).

(** [try { m } catch { handler }] *)
Definition try_catch {A} (m : M A) (handler : M A) : M A :=
  match m with
  | (t, Some a) => (t, Some a)
  | (t, None) => let (t', r) := handler in (t ++ t', r)
  end.

Definition trace {A} (m : M A) : list Event := fst m.
Definition result {A} (m : M A) : option A := snd m.

Declare Scope js_scope.
Delimit Scope js_scope with js.
Notation "x <- m ;; k" := (bind m (fun x => k))
  (at level 61, m at next level, right associativity) : js_scope.
Notation "' pat <- m ;; k" := (bind m (fun x => match x with pat => k end))
  (at level 61, pat pattern, m at next level, right associativity) : js_scope.
Notation "m ;; k" := (bind m (fun _ => k))
  (at level 61, right associativity) : js_scope.

Local Open Scope js_scope.

Section Driver.

Variable sys : System.
Variable cfg : Config.

(** ** Thin wrappers over the environment *)

(** [getFileSize] (lines 35-43): the size, or [0] when [statSync] throws. *)
Definition getFileSize (filePath : string) : M Z :=
  match statSync sys filePath with
  | Some n => ret (Z.of_N n)
  | None => log (msg_size_error filePath) ;; ret 0
  end.

(** [getImageDimensions] (lines 48-59): never throws. *)
Definition getImageDimensions (filePath : string) : M (Z * Z) :=
  match metadata sys (FromPath filePath) with
  | Some d => ret d
  | None => log (msg_dimensions_error filePath) ;; ret (0, 0)
  end.

(** [instance.resize(options)]: throws when sharp rejects the options. *)
Definition resize (s : Sharp) (o : ResizeOptions) : M Sharp :=
  if resizeAccepts sys o
  then ret {| input := input s; resizing := Some o |}
  else throw.

(** The [switch (outputFormat)] that picks the encoder method. *)
Definition encoderFor (outputFormat : string) : Encoder :=
  if (outputFormat =? "png")%string then png
  else if (outputFormat =? "webp")%string then webp
  else if (outputFormat =? "tiff")%string then tiff
  else jpeg.

(** [await instance.<encoder>(options).toBuffer()], the [n]-th of the file. *)
Definition encode (n quality : Z) (s : Sharp) (outputFormat : string)
    (o : FormatOptions) : M Buffer :=
  let call := {| instance := s; encoder := encoderFor outputFormat;
                 options := o |} in
  let r := toBuffer sys n call in
  ([ev_encode n quality call r], r).

(** ** Resize planner *)

(** Lines 100-133: the resize of the first attempt, and [willResize]. *)
Definition planResize (sharpInstance : Sharp) : M (Sharp * bool) :=
  if truthy_num (targetWidth cfg) || truthy_num (targetHeight cfg) then
    let resizeOptions :=
      if truthy_num (targetWidth cfg) && truthy_num (targetHeight cfg) then
        {| width := targetWidth cfg; height := targetHeight cfg;
           fit := Some fill; withoutEnlargement := None |}
      else if truthy_num (targetWidth cfg) then
        {| width := targetWidth cfg; height := None;
           fit := Some inside; withoutEnlargement := Some true |}
      else if truthy_num (targetHeight cfg) then
        {| width := None; height := targetHeight cfg;
           fit := Some inside; withoutEnlargement := Some true |}
      else
        {| width := None; height := None; fit := None;
           withoutEnlargement := None |} in
    sharpInstance <- resize sharpInstance resizeOptions ;;
    ret (sharpInstance, true)
  else if 0 <? MAX_DIMENSION cfg then
    sharpInstance <- resize sharpInstance
      {| width := Some (Int (MAX_DIMENSION cfg));
         height := Some (Int (MAX_DIMENSION cfg));
         fit := Some inside; withoutEnlargement := Some true |} ;;
    ret (sharpInstance, true)
  else
    ret (sharpInstance, false).

(** Lines 175-201: the resize written out again inside the loop. *)
Definition planResizeAgain (sharpInstance : Sharp) : M Sharp :=
  if truthy_num (targetWidth cfg) || truthy_num (targetHeight cfg) then
    let resizeOptions :=
      if truthy_num (targetWidth cfg) && truthy_num (targetHeight cfg) then
        {| width := targetWidth cfg; height := targetHeight cfg;
           fit := Some fill; withoutEnlargement := None |}
      else if truthy_num (targetWidth cfg) then
        {| width := targetWidth cfg; height := None;
           fit := Some inside; withoutEnlargement := Some true |}
      else if truthy_num (targetHeight cfg) then
        {| width := None; height := targetHeight cfg;
           fit := Some inside; withoutEnlargement := Some true |}
      else
        {| width := None; height := None; fit := None;
           withoutEnlargement := None |} in
    resize sharpInstance resizeOptions
  else if 0 <? MAX_DIMENSION cfg then
    resize sharpInstance
      {| width := Some (Int (MAX_DIMENSION cfg));
         height := Some (Int (MAX_DIMENSION cfg));
         fit := Some inside; withoutEnlargement := Some true |}
  else
    ret sharpInstance.

(** ** Compression search *)

(** Lines 137-141. *)
Definition outputFormatOf : string :=
  match targetFormat cfg with
  | Some f => if truthy_str (targetFormat cfg) then f else "jpeg"
  | None => "jpeg"
  end.

(** The variables the refinement loop reads and updates.  [sharpInstance]
    is assigned afresh at the top of every iteration and never read before
    that, so it is local to the iteration. *)
Record LoopState : Type := {
  compressedBuffer : Buffer;
  quality : Z;
  attempts : Z;
  formatOpts : FormatOptions
}.

(** The [while] condition (line 170). *)
Definition loopGuard (s : LoopState) : bool :=
  (TARGET_SIZE <? buf_length (compressedBuffer s))
  && (10 <? quality s) && (attempts s <? 5).

(** Iterations left before [attempts < 5] fails: the loop's variant. *)
Definition attemptsLeft (s : LoopState) : nat := Z.to_nat (5 - attempts s).
Arguments attemptsLeft : simpl never.

(** The [while] loop (lines 170-227). *)
Equations? refineLoop (filePath outputFormat : string) (s : LoopState)
  : M LoopState by wf (attemptsLeft s) lt :=
  refineLoop filePath outputFormat s with inspect (loopGuard s) := {
    | exist _ true _ =>
        let quality' := quality s - 10 in
        sharpInstance <- planResizeAgain (sharp (FromPath filePath)) ;;
        let formatOpts' :=
          if (outputFormat =? "png")%string
          then compressionLevel_opt ((100 - quality') / 10)
          else quality_opt quality' in
        compressedBuffer' <-
          encode (attempts s + 1) quality' sharpInstance outputFormat
            formatOpts' ;;
        let attempts' := attempts s + 1 in
        log (msg_attempt (attempts' + 1) quality'
               (buf_length compressedBuffer')) ;;
        refineLoop filePath outputFormat
          {| compressedBuffer := compressedBuffer'; quality := quality';
             attempts := attempts'; formatOpts := formatOpts' |}
    | exist _ false _ => ret s
  }.
Proof.
  unfold loopGuard in e.
  apply andb_prop in e as [_ e]. apply Z.ltb_lt in e.
  unfold attemptsLeft. cbn [attempts]. subst attempts'. lia.
Qed.

(** [newFilePath] (lines 241-245). *)
Definition newFilePathOf (filePath : string) : string :=
  match targetFormat cfg with
  | Some f =>
      if truthy_str (targetFormat cfg) then
        let ext := extname filePath in
        sliceDropLast filePath (String.length ext) ++ "." ++ f
      else filePath
  | None => filePath
  end.

(** Lines 229-255 of the [try] block: the warning, the new dimensions,
    the write and the removal of the original. *)
Definition finishCompression (filePath : string) (willResize : bool)
    (s : LoopState) : M Z :=
  (if TARGET_SIZE <? buf_length (compressedBuffer s)
   then log (msg_warning (quality s)) else ret tt) ;;
  (if willResize
   then match metadata sys (FromBuffer (compressedBuffer s)) with
        | Some newMetadata =>
            log (msg_new_dimensions (fst newMetadata) (snd newMetadata))
        | None => throw
        end
   else ret tt) ;;
  let newFilePath := newFilePathOf filePath in
  emit (ev_write newFilePath (compressedBuffer s)) ;;
  (if writeFileSync sys newFilePath (compressedBuffer s)
   then ret tt else throw) ;;
  (if negb (filePath =? newFilePath)%string
   then emit (ev_unlink filePath) ;;
        (if unlinkSync sys filePath then ret tt else throw)
   else ret tt) ;;
  ret (buf_length (compressedBuffer s)).

(** The [try] block of [compressWithRatio] (lines 84-255). *)
Definition compressWithRatio_try (filePath : string) (originalSize : Z)
  : M Z :=
  originalDimensions <- getImageDimensions filePath ;;
  log (msg_original_dimensions (fst originalDimensions)
         (snd originalDimensions)) ;;
  let sizeRatio := sizeRatioOf originalSize in
  let estimatedQuality := estimateQuality sizeRatio in
  let estimatedQuality := clampQuality estimatedQuality in
  log (msg_estimated estimatedQuality sizeRatio) ;;
  let sharpInstance := sharp (FromPath filePath) in
  '(sharpInstance, willResize) <- planResize sharpInstance ;;
  let formatOptions := quality_opt estimatedQuality in
  let outputFormat := outputFormatOf in
  let formatOptions :=
    if (outputFormat =? "png")%string
    then compressionLevel_opt ((100 - estimatedQuality) / 10)
    else formatOptions in
  compressedBuffer0 <-
    encode 0 estimatedQuality sharpInstance outputFormat formatOptions ;;
  s <- refineLoop filePath outputFormat
         {| compressedBuffer := compressedBuffer0;
            quality := estimatedQuality; attempts := 0;
            formatOpts := formatOptions |} ;;
  finishCompression filePath willResize s.

(** [compressWithRatio] (lines 82-260): any error thrown in the [try]
    block is caught and the original size is returned. *)
Definition compressWithRatio (filePath : string) (originalSize : Z) : M Z :=
  emit (ev_compress filePath originalSize) ;;
  try_catch (compressWithRatio_try filePath originalSize)
    (log (msg_compress_error filePath) ;; ret originalSize).

(** ** Batch driver *)

(** The directory filter (lines 296-300). *)
Definition isImageFile (file : string) : bool :=
  let ext := toLowerCase (extname file) in
  ((ext =? ".webp") || (ext =? ".png") || (ext =? ".tiff")
   || (ext =? ".tif"))%string.

(** [targetFormat && targetFormat !== ext] (line 326), as a condition. *)
Definition needsFormatConversion (file : string) : bool :=
  let ext := slice1 (toLowerCase (extname file)) in
  match targetFormat cfg with
  | Some f => truthy_str (targetFormat cfg) && negb (f =? ext)%string
  | None => false
  end.

(** [targetWidth || targetHeight || MAX_DIMENSION > 0] (line 327), as a
    condition. *)
Definition needsResize : bool :=
  truthy_num (targetWidth cfg) || truthy_num (targetHeight cfg)
  || (0 <? MAX_DIMENSION cfg).

Record Counts : Type := {
  processedCount : Z;
  skippedCount : Z
}.

(** The body of the [for] loop over the image files (lines 313-346). *)
Definition processFile (file : string) (c : Counts) : M Counts :=
  originalSize <- getFileSize file ;;
  if originalSize =? 0 then
    log (msg_skip_unreadable file) ;;
    ret c
  else if (originalSize <=? TARGET_SIZE)
          && negb (needsFormatConversion file) && negb needsResize then
    log (msg_skip_small file originalSize) ;;
    ret {| processedCount := processedCount c;
           skippedCount := skippedCount c + 1 |}
  else
    log (msg_processing file originalSize) ;;
    newSize <- compressWithRatio file originalSize ;;
    if newSize <? originalSize then
      log (msg_compressed file newSize) ;;
      ret {| processedCount := processedCount c + 1;
             skippedCount := skippedCount c |}
    else
      log (msg_failed file) ;;
      ret c.

(** [for (const file of imageFiles) { ... }] *)
Fixpoint forEachFile (imageFiles : list string) (c : Counts) : M Counts :=
  match imageFiles with
  | [] => ret c
  | file :: rest => c' <- processFile file c ;; forEachFile rest c'
  end.

(** The line that tells which resize is in effect (lines 278-290). *)
Definition resizeInfo : Message :=
  if truthy_num (targetWidth cfg) || truthy_num (targetHeight cfg) then
    if truthy_num (targetWidth cfg) && truthy_num (targetHeight cfg) then
      msg_resize_exact (targetWidth cfg) (targetHeight cfg)
    else if truthy_num (targetWidth cfg) then
      msg_resize_width (targetWidth cfg)
    else
      msg_resize_height (targetHeight cfg)
  else if 0 <? MAX_DIMENSION cfg then
    msg_resize_max (MAX_DIMENSION cfg)
  else
    msg_resize_disabled.

(** [compressImages] (lines 272-354). *)
Definition compressImages : M unit :=
  try_catch
    (log msg_banner ;;
     log msg_scanning ;;
     log resizeInfo ;;
     files <- (match readdirSync sys "." with
               | Some l => ret l
               | None => throw
               end) ;;
     let imageFiles := filter isImageFile files in
     if (List.length imageFiles =? 0)%nat then
       log msg_none_found
     else
       log (msg_found (List.length imageFiles)) ;;
       c <- forEachFile imageFiles
              {| processedCount := 0; skippedCount := 0 |} ;;
       log msg_complete ;;
       log (msg_summary (processedCount c) (skippedCount c)))
    (log msg_fatal).

End Driver.

(** The program: read the arguments, then run the batch. *)
Definition main (sys : System) (args : list string) : M unit :=
  compressImages sys (loadConfig args).

(** ** Reading traces *)

(** The first quality of a file. *)
Definition firstQuality (originalSize : Z) : Z :=
  seedQuality (sizeRatioOf originalSize).


(** One encode, as recorded by [ev_encode]. *)
Record Attempt : Type := {
  att_n : Z;
  att_quality : Z;
  att_call : EncodeCall;
  att_result : option Buffer
}.

(** The encodes of a trace, in order. *)
Fixpoint attemptsOf (t : list Event) : list Attempt :=
  match t with
  | [] => []
  | ev_encode n q c r :: t' =>
      {| att_n := n; att_quality := q; att_call := c; att_result := r |}
      :: attemptsOf t'
  | _ :: t' => attemptsOf t'
  end.

(** The invocations of [compressWithRatio] in a trace, in order. *)
Fixpoint compressCalls (t : list Event) : list (string * Z) :=
  match t with
  | [] => []
  | ev_compress f sz :: t' => (f, sz) :: compressCalls t'
  | _ :: t' => compressCalls t'
  end.

(** The options the encoder gets while the quality variable holds [q]. *)
Definition optionsAt (outputFormat : string) (q : Z) : FormatOptions :=
  if (outputFormat =? "png")%string
  then compressionLevel_opt ((100 - q) / 10)
  else quality_opt q.

(** [next] is a refinement of the attempt [prev]: the loop condition held
    on what [prev] produced, the quality went down by ten and the counter
    up by one. *)
Definition refinementOf (prev next : Attempt) : Prop :=
  (exists b, att_result prev = Some b /\ TARGET_SIZE < buf_length b)
  /\ 10 < att_quality prev
  /\ att_n prev < 5
  /\ att_quality next = att_quality prev - 10
  /\ att_n next = att_n prev + 1.

(** What [getFileSize] reads for a file. *)
Definition readSize (sys : System) (file : string) : Z :=
  match statSync sys file with
  | Some n => Z.of_N n
  | None => 0
  end.

(** The two tests that make the batch loop [continue] before it reaches
    [compressWithRatio] (lines 315 and 329), on a file of size [sz]. *)
Definition skips (cfg : Config) (file : string) (sz : Z) : bool :=
  (sz =? 0)
  || ((sz <=? TARGET_SIZE) && negb (needsFormatConversion cfg file)
      && negb (needsResize cfg)).

(** The argument list carries none of the [w=], [h=], [t=] options. *)
Definition noOptions (args : list string) : bool :=
  forallb (fun arg => negb (startsWith arg "w=" || startsWith arg "h="
                            || startsWith arg "t=")) args.

(** The format of a source image, by its extension. *)
Definition sourceFormat (file : string) : option Encoder :=
  let ext := toLowerCase (extname file) in
  if (ext =? ".png")%string then Some png
  else if (ext =? ".webp")%string then Some webp
  else if ((ext =? ".tiff") || (ext =? ".tif"))%string then Some tiff
  else if ((ext =? ".jpg") || (ext =? ".jpeg"))%string then Some jpeg
  else None.

(** The parameters of an encode lie in the domain of the encoder: a
    quality from 1 to 95 for the quality-based encoders, a compression
    level from 0 to 9 for PNG. *)
Definition validCall (a : Attempt) : Prop :=
  match options (att_call a) with
  | quality_opt q => encoder (att_call a) <> png /\ 1 <= q <= 95
  | compressionLevel_opt level =>
      encoder (att_call a) = png /\ 0 <= level <= 9
  end.

(** ** The quality estimator as the specification words it *)

(** The table of section 4.1: [v] is the value of the segment formula that
    applies to [ratio]. *)
Definition piecewise (ratio v : Q) : Prop :=
  (0.8 <= ratio /\ v == 85 + (ratio - 0.8) * 50)%Q
  \/ (0.5 <= ratio /\ ratio < 0.8 /\ v == 70 + (ratio - 0.5) * 50)%Q
  \/ (0.3 <= ratio /\ ratio < 0.5 /\ v == 50 + (ratio - 0.3) * 100)%Q
  \/ (ratio < 0.3 /\ v == 30 + ratio * 66.7)%Q.

(** [n] is the integer nearest to [v], a half rounding up. *)
Definition nearestInteger (v : Q) (n : Z) : Prop :=
  (inject_Z n - (1 # 2) <= v /\ v < inject_Z n + (1 # 2))%Q.

(** [n] clamped to the interval from [lo] to [hi]. *)
Definition clampTo (lo hi n : Z) : Z :=
  if n <? lo then lo else if hi <? n then hi else n.

(** ** The resize planner as the specification words it *)

Inductive FitMode : Type := exactFill | containNoEnlarge.

Record ResizeSpec : Type := {
  spec_width : option Z;
  spec_height : option Z;
  fitMode : FitMode;
  enlargementAllowed : bool
}.

(** The five rules of the Resize Planner; [None] is "no resize". *)
Definition resizePlanner (requestedWidth requestedHeight : option Z)
    (maxDimension : Z) : option ResizeSpec :=
  match requestedWidth, requestedHeight with
  | Some w, Some h =>
      Some {| spec_width := Some w; spec_height := Some h;
              fitMode := exactFill; enlargementAllowed := true |}
  | Some w, None =>
      Some {| spec_width := Some w; spec_height := None;
              fitMode := containNoEnlarge; enlargementAllowed := false |}
  | None, Some h =>
      Some {| spec_width := None; spec_height := Some h;
              fitMode := containNoEnlarge; enlargementAllowed := false |}
  | None, None =>
      if 0 <? maxDimension then
        Some {| spec_width := Some maxDimension;
                spec_height := Some maxDimension;
                fitMode := containNoEnlarge; enlargementAllowed := false |}
      else None
  end.

(** A requested dimension is present when the program treats the variable
    as set, that is when it is truthy. *)
Definition requested (v : option jsnum) : option Z :=
  match v with
  | Some (Int z) => if z =? 0 then None else Some z
  | _ => None
  end.

(** What sharp does with a resize options object, in the words of the
    specification: [fit: 'fill'] stretches to the exact size, [fit:
    'inside'] fits within the bounds, and enlargement is allowed unless
    [withoutEnlargement] is set.  Undefined for options with no [fit]
    or with a non-integer dimension. *)
Definition readResizeOptions (o : ResizeOptions) : option ResizeSpec :=
  let dim (v : option jsnum) : option (option Z) :=
    match v with
    | None => Some None
    | Some (Int z) => Some (Some z)
    | Some NaN => None
    end in
  match dim (width o), dim (height o), fit o with
  | Some w, Some h, Some f =>
      Some {| spec_width := w; spec_height := h;
              fitMode := match f with
                         | fill => exactFill
                         | inside => containNoEnlarge
                         end;
              enlargementAllowed :=
                match withoutEnlargement o with
                | Some true => false
                | _ => true
                end |}
  | _, _, _ => None
  end.

(** ** More readers of traces *)

(** The writes and removals of a trace, in order. *)
Definition isFileOp (e : Event) : bool :=
  match e with
  | ev_write _ _ | ev_unlink _ => true
  | _ => false
  end.

Definition fileOps (t : list Event) : list Event := filter isFileOp t.

(** The qualities reported by the over-target warning (line 231). *)
Fixpoint warningsOf (t : list Event) : list Z :=
  match t with
  | [] => []
  | ev_console (msg_warning q) :: t' => q :: warningsOf t'
  | _ :: t' => warningsOf t'
  end.

(** The console lines of a trace, in order. *)
Fixpoint consoleOf (t : list Event) : list Message :=
  match t with
  | [] => []
  | ev_console m :: t' => m :: consoleOf t'
  | _ :: t' => consoleOf t'
  end.

(** The environment [sys] with other answers to [metadata] on source
    files; the answers on buffers are kept. *)
Definition withSourceMetadata (m : string -> option (Z * Z)) (sys : System)
  : System :=
  {| readdirSync := readdirSync sys;
     statSync := statSync sys;
     metadata := fun i => match i with
                          | FromPath p => m p
                          | FromBuffer b => metadata sys (FromBuffer b)
                          end;
     resizeAccepts := resizeAccepts sys;
     toBuffer := toBuffer sys;
     writeFileSync := writeFileSync sys;
     unlinkSync := unlinkSync sys |}.

(** The part of the [try] block that ends with the loop (lines 84-227),
    with the first resize written as the resize of the loop (see
    [planResize_again]). *)
Definition searchOf (sys : System) (cfg : Config) (filePath : string)
    (originalSize : Z) : M LoopState :=
  (d <- getImageDimensions sys filePath ;;
   log (msg_original_dimensions (fst d) (snd d)) ;;
   let q0 := firstQuality originalSize in
   log (msg_estimated q0 (sizeRatioOf originalSize)) ;;
   inst <- planResizeAgain sys cfg (sharp (FromPath filePath)) ;;
   b0 <- encode sys 0 q0 inst (outputFormatOf cfg)
           (optionsAt (outputFormatOf cfg) q0) ;;
   refineLoop sys cfg filePath (outputFormatOf cfg)
     {| compressedBuffer := b0; quality := q0; attempts := 0;
        formatOpts := optionsAt (outputFormatOf cfg) q0 |})%js.

(** The file is counted as skipped: its size is not 0 and the test of line
    329 holds. *)
Definition countedSkipped (sys : System) (cfg : Config) (file : string)
  : bool :=
  negb (readSize sys file =? 0) && skips cfg file (readSize sys file).

(** The file is counted as processed: [compressWithRatio] is called and
    returns less than the original size. *)
Definition countedProcessed (sys : System) (cfg : Config) (file : string)
  : bool :=
  negb (skips cfg file (readSize sys file))
  && match result (compressWithRatio sys cfg file (readSize sys file)) with
     | Some newSize => newSize <? readSize sys file
     | None => false
     end.

(** The events the search part can produce: encodes, the line printed
    after a refinement, and the lines about the dimensions of the source
    and about the estimate. *)
Definition searchEvent (e : Event) : Prop :=
  match e with
  | ev_encode _ _ _ _ => True
  | ev_console (msg_attempt _ _ _) => True
  | ev_console (msg_dimensions_error _) => True
  | ev_console (msg_original_dimensions _ _) => True
  | ev_console (msg_estimated _ _) => True
  | _ => False
  end.

(** The last argument that starts with [key], if any. *)
Fixpoint lastWith (key : string) (args : list string) : option string :=
  match args with
  | [] => None
  | arg :: rest =>
      match lastWith key rest with
      | Some a => Some a
      | None => if startsWith arg key then Some arg else None
      end
  end.

(** [arg.split('=')[1]] *)
Definition valueOf (arg : string) : string :=
  nth 1 (split "=" arg) EmptyString.

(** ** Sample environments *)

(** A directory with the given entries, all of the same size, in which
    every call succeeds and the [n]-th encode of a file gives
    [encoded n]. *)
Definition sampleSystem (entries : list string) (size : N)
    (encoded : Z -> option Buffer) : System :=
  {| readdirSync := fun _ => Some entries;
     statSync := fun _ => Some size;
     metadata := fun _ => Some (3000, 2000);
     resizeAccepts := fun _ => true;
     toBuffer := fun n _ => encoded n;
     writeFileSync := fun _ _ => true;
     unlinkSync := fun _ => true |}.

(** One 50000-byte PNG that encodes to 40000 bytes. *)
Definition smallWorld : System :=
  sampleSystem ["a.png"] 50000 (fun _ => Some {| buf_length := 40000 |}).

(** One 10240000-byte PNG that never encodes below 200000 bytes. *)
Definition stubbornWorld : System :=
  sampleSystem ["a.png"] 10240000 (fun _ => Some {| buf_length := 200000 |}).

(** Two 500000-byte images; the second encode of a file fails. *)
Definition failingWorld : System :=
  sampleSystem ["a.png"; "b.webp"] 500000
    (fun n => if n =? 1 then None else Some {| buf_length := 200000 |}).

(** One 50000-byte PNG that encodes to 60000 bytes. *)
Definition growingWorld : System :=
  sampleSystem ["a.png"] 50000 (fun _ => Some {| buf_length := 60000 |}).

(** * Properties *)

(** ** Sample runs of the string built-ins and of the configuration *)

Example loadConfig_sample :
  loadConfig ["w=800"; "t=PNG"] =
  {| targetWidth := Some (Int 800); targetHeight := None;
     targetFormat := Some "png"; MAX_DIMENSION := 0 |}.
Proof. reflexivity. Qed.

Example extname_samples :
  extname "a.b.PNG" = ".PNG" /\ extname ".bashrc" = "" /\ extname ".." = ""
  /\ extname "file." = "." /\ extname "noext" = "" /\ extname ".a.b" = ".b".
Proof. repeat split. Qed.

Example parseInt_samples :
  parseInt "800" = Int 800 /\ parseInt " -12px" = Int (-12)
  /\ parseInt "0x1f" = Int 31 /\ parseInt "" = NaN /\ parseInt "abc" = NaN
  /\ parseInt "0" = Int 0.
Proof. repeat split. Qed.

(** A whole run on one small PNG with no option: the default bound of 1920
    is planned, the seed is 95, and the first encode is under the target. *)
Example smallWorld_run :
  main smallWorld [] =
  ([ev_console msg_banner;
    ev_console msg_scanning;
    ev_console (msg_resize_max 1920);
    ev_console (msg_found 1);
    ev_console (msg_processing "a.png" 50000);
    ev_compress "a.png" 50000;
    ev_console (msg_original_dimensions 3000 2000);
    ev_console (msg_estimated 95 (sizeRatioOf 50000));
    ev_encode 0 95
      {| instance :=
           {| input := FromPath "a.png";
              resizing :=
                Some {| width := Some (Int 1920); height := Some (Int 1920);
                        fit := Some inside;
                        withoutEnlargement := Some true |} |};
         encoder := jpeg;
         options := quality_opt 95 |}
      (Some {| buf_length := 40000 |});
    ev_console (msg_new_dimensions 3000 2000);
    ev_write "a.png" {| buf_length := 40000 |};
    ev_console (msg_compressed "a.png" 40000);
    ev_console msg_complete;
    ev_console (msg_summary 1 0)],
   Some tt).
Proof. vm_compute. reflexivity. Qed.

(** ** The effect monad *)

Lemma trace_bind {A B} (m : M A) (f : A -> M B) :
  trace (bind m f) =
  trace m ++ match result m with Some a => trace (f a) | None => [] end.
Proof.
  destruct m as [t [a|]]; simpl.
  - destruct (f a); reflexivity.
  - now rewrite app_nil_r.
Qed.

Lemma result_bind {A B} (m : M A) (f : A -> M B) :
  result (bind m f) =
  match result m with Some a => result (f a) | None => None end.
Proof.
  destruct m as [t [a|]]; simpl; [destruct (f a)|]; reflexivity.
Qed.

Lemma trace_log_bind {B} (m : Message) (k : unit -> M B) :
  trace (bind (log m) k) = ev_console m :: trace (k tt).
Proof. unfold log, emit, bind. destruct (k tt); reflexivity. Qed.

Lemma result_log_bind {B} (m : Message) (k : unit -> M B) :
  result (bind (log m) k) = result (k tt).
Proof. unfold log, emit, bind. destruct (k tt); reflexivity. Qed.

Lemma trace_try_catch {A} (m h : M A) :
  trace (try_catch m h) =
  trace m ++ match result m with Some _ => [] | None => trace h end.
Proof.
  destruct m as [t [a|]]; simpl.
  - now rewrite app_nil_r.
  - destruct h; reflexivity.
Qed.

Lemma result_try_catch {A} (m h : M A) :
  result (try_catch m h) =
  match result m with Some a => Some a | None => result h end.
Proof.
  destruct m as [t [a|]]; simpl; [|destruct h]; reflexivity.
Qed.

Lemma attemptsOf_app (t1 t2 : list Event) :
  attemptsOf (t1 ++ t2) = attemptsOf t1 ++ attemptsOf t2.
Proof.
  induction t1 as [|e t1 IH]; simpl; [reflexivity|].
  destruct e; simpl; now rewrite IH.
Qed.

Lemma compressCalls_app (t1 t2 : list Event) :
  compressCalls (t1 ++ t2) = compressCalls t1 ++ compressCalls t2.
Proof.
  induction t1 as [|e t1 IH]; simpl; [reflexivity|].
  destruct e; simpl; now rewrite IH.
Qed.

Lemma compressCalls_In (t : list Event) f sz :
  In (ev_compress f sz) t <-> In (f, sz) (compressCalls t).
Proof.
  induction t as [|e t IH]; simpl; [tauto|].
  destruct e; simpl; rewrite <- IH; try (intuition congruence).
Qed.

(** ** The refinement loop, one unfolding at a time *)

Section Search.

Variable sys : System.
Variable cfg : Config.

Lemma refineLoop_step (filePath outputFormat : string) (s : LoopState) :
  refineLoop sys cfg filePath outputFormat s =
  if loopGuard s then
    sharpInstance <- planResizeAgain sys cfg (sharp (FromPath filePath)) ;;
    compressedBuffer' <-
      encode sys (attempts s + 1) (quality s - 10) sharpInstance
        outputFormat (optionsAt outputFormat (quality s - 10)) ;;
    log (msg_attempt (attempts s + 1 + 1) (quality s - 10)
           (buf_length compressedBuffer')) ;;
    refineLoop sys cfg filePath outputFormat
      {| compressedBuffer := compressedBuffer'; quality := quality s - 10;
         attempts := attempts s + 1;
         formatOpts := optionsAt outputFormat (quality s - 10) |}
  else ret s.
Proof.
  rewrite refineLoop_equation_1. unfold inspect.
  generalize (@eq_refl bool (loopGuard s)).
  generalize (loopGuard s) at 2 4 5.
  intros [] e; reflexivity.
Qed.

Lemma planResizeAgain_trace (i : Sharp) :
  trace (planResizeAgain sys cfg i) = [].
Proof.
  unfold planResizeAgain, resize.
  repeat match goal with
         | |- context [if ?b then _ else _] => destruct b
         end; reflexivity.
Qed.

(** The first resize and the resize of the loop are the same plan. *)
Lemma planResize_again (i : Sharp) :
  planResize sys cfg i =
  (i' <- planResizeAgain sys cfg i ;; ret (i', needsResize cfg)).
Proof.
  unfold planResize, planResizeAgain, needsResize, resize.
  destruct (truthy_num (targetWidth cfg)), (truthy_num (targetHeight cfg));
    simpl; try (destruct (resizeAccepts sys _); reflexivity).
  destruct (0 <? MAX_DIMENSION cfg); simpl;
    try (destruct (resizeAccepts sys _)); reflexivity.
Qed.

(** The plan does not depend on the input it is applied to. *)
Lemma planResizeAgain_fresh :
  (forall i, result (planResizeAgain sys cfg (sharp i)) = None) \/
  exists rz, forall i,
    result (planResizeAgain sys cfg (sharp i)) =
    Some {| input := i; resizing := rz |}.
Proof.
  unfold planResizeAgain, resize.
  destruct (truthy_num (targetWidth cfg)), (truthy_num (targetHeight cfg));
    simpl;
    try (destruct (resizeAccepts sys _);
         [right; eexists; reflexivity | left; reflexivity]).
  destruct (0 <? MAX_DIMENSION cfg); simpl.
  - destruct (resizeAccepts sys _);
      [right; eexists; reflexivity | left; reflexivity].
  - right. exists None. reflexivity.
Qed.

(** One iteration of the loop, spelled out on the trace. *)
Lemma refineLoop_iterate (filePath outputFormat : string) (s : LoopState) :
  loopGuard s = true ->
  refineLoop sys cfg filePath outputFormat s =
  match result (planResizeAgain sys cfg (sharp (FromPath filePath))) with
  | None => ([], None)
  | Some inst =>
      let q := quality s - 10 in
      let call := {| instance := inst; encoder := encoderFor outputFormat;
                     options := optionsAt outputFormat q |} in
      match toBuffer sys (attempts s + 1) call with
      | None => ([ev_encode (attempts s + 1) q call None], None)
      | Some b =>
          let next := refineLoop sys cfg filePath outputFormat
                        {| compressedBuffer := b; quality := q;
                           attempts := attempts s + 1;
                           formatOpts := optionsAt outputFormat q |} in
          (ev_encode (attempts s + 1) q call (Some b)
             :: ev_console (msg_attempt (attempts s + 1 + 1) q (buf_length b))
             :: trace next,
           result next)
      end
  end.
Proof.
  intros Hg. rewrite refineLoop_step, Hg.
  pose proof (planResizeAgain_trace (sharp (FromPath filePath))) as Ht.
  destruct (planResizeAgain sys cfg (sharp (FromPath filePath)))
    as [t [inst|]]; simpl in Ht; subst t; simpl; [|reflexivity].
  unfold encode.
  destruct (toBuffer sys (attempts s + 1) _) as [b|]; simpl; [|reflexivity].
  destruct (refineLoop sys cfg filePath outputFormat _); reflexivity.
Qed.

Lemma refineLoop_stop (filePath outputFormat : string) (s : LoopState) :
  loopGuard s = false ->
  refineLoop sys cfg filePath outputFormat s = ([], Some s).
Proof. intros Hg. now rewrite refineLoop_step, Hg. Qed.

Lemma attemptsLeft_next (s : LoopState) b q o :
  loopGuard s = true ->
  S (attemptsLeft {| compressedBuffer := b; quality := q;
                     attempts := attempts s + 1; formatOpts := o |})
  = attemptsLeft s.
Proof.
  unfold loopGuard, attemptsLeft. intros Hg. cbn [attempts].
  apply andb_prop in Hg as [_ Hg]. apply Z.ltb_lt in Hg. lia.
Qed.

Lemma loopGuard_spent (s : LoopState) :
  attemptsLeft s = O -> loopGuard s = false.
Proof.
  unfold loopGuard, attemptsLeft. intros H.
  assert ((attempts s <? 5) = false) as -> by (apply Z.ltb_ge; lia).
  apply andb_false_r.
Qed.

(** Induction on the loop: a property of the loop's outcome that holds
    when the loop stops, when an iteration throws, and is carried across a
    successful iteration, holds of every run. *)
Lemma refineLoop_ind (filePath outputFormat : string)
    (P : LoopState -> M LoopState -> Prop) :
  (forall s, loopGuard s = false -> P s ([], Some s)) ->
  (forall s, loopGuard s = true ->
     result (planResizeAgain sys cfg (sharp (FromPath filePath))) = None ->
     P s ([], None)) ->
  (forall s inst call,
     loopGuard s = true ->
     result (planResizeAgain sys cfg (sharp (FromPath filePath)))
       = Some inst ->
     call = {| instance := inst; encoder := encoderFor outputFormat;
               options := optionsAt outputFormat (quality s - 10) |} ->
     toBuffer sys (attempts s + 1) call = None ->
     P s ([ev_encode (attempts s + 1) (quality s - 10) call None], None)) ->
  (forall s inst call b s' m,
     loopGuard s = true ->
     result (planResizeAgain sys cfg (sharp (FromPath filePath)))
       = Some inst ->
     call = {| instance := inst; encoder := encoderFor outputFormat;
               options := optionsAt outputFormat (quality s - 10) |} ->
     toBuffer sys (attempts s + 1) call = Some b ->
     s' = {| compressedBuffer := b; quality := quality s - 10;
             attempts := attempts s + 1;
             formatOpts := optionsAt outputFormat (quality s - 10) |} ->
     P s' m ->
     P s (ev_encode (attempts s + 1) (quality s - 10) call (Some b)
            :: ev_console (msg_attempt (attempts s + 1 + 1) (quality s - 10)
                             (buf_length b))
            :: trace m,
          result m)) ->
  forall s, P s (refineLoop sys cfg filePath outputFormat s).
Proof.
  intros Hstop Hplan Hfail Hnext s.
  remember (attemptsLeft s) as k eqn:Hk. revert s Hk.
  induction k as [|k IH]; intros s Hk.
  - rewrite refineLoop_stop by now apply loopGuard_spent.
    apply Hstop. now apply loopGuard_spent.
  - destruct (loopGuard s) eqn:Hg.
    + rewrite refineLoop_iterate by assumption.
      destruct (result (planResizeAgain sys cfg (sharp (FromPath filePath))))
        as [inst|] eqn:Hp; [|now apply Hplan].
      cbv zeta.
      destruct (toBuffer sys (attempts s + 1) _) as [b|] eqn:Hb.
      * eapply Hnext; eauto. apply IH.
        pose proof (attemptsLeft_next s b (quality s - 10)
                      (optionsAt outputFormat (quality s - 10)) Hg). lia.
      * eapply Hfail; eauto.
    + rewrite refineLoop_stop by assumption. now apply Hstop.
Qed.

Lemma getImageDimensions_attempts (filePath : string) :
  attemptsOf (trace (getImageDimensions sys filePath)) = []
  /\ exists d, result (getImageDimensions sys filePath) = Some d.
Proof.
  unfold getImageDimensions.
  destruct (metadata sys _); simpl; eauto.
Qed.

Lemma finishCompression_attempts (filePath : string) (w : bool)
    (s : LoopState) :
  attemptsOf (trace (finishCompression sys cfg filePath w s)) = [].
Proof.
  unfold finishCompression.
  repeat (rewrite ?trace_bind, ?attemptsOf_app;
          match goal with
          | |- context [if ?b then _ else _] => destruct b
          | |- context [match metadata ?a ?b with _ => _ end] =>
              destruct (metadata a b)
          | _ => idtac
          end; simpl); reflexivity.
Qed.

(** The [try] block with the two copies of the resize plan identified. *)
Lemma compressWithRatio_try_eq (filePath : string) (originalSize : Z) :
  compressWithRatio_try sys cfg filePath originalSize =
  (d <- getImageDimensions sys filePath ;;
   log (msg_original_dimensions (fst d) (snd d)) ;;
   let q0 := firstQuality originalSize in
   log (msg_estimated q0 (sizeRatioOf originalSize)) ;;
   inst <- planResizeAgain sys cfg (sharp (FromPath filePath)) ;;
   b0 <- encode sys 0 q0 inst (outputFormatOf cfg)
           (optionsAt (outputFormatOf cfg) q0) ;;
   s <- refineLoop sys cfg filePath (outputFormatOf cfg)
          {| compressedBuffer := b0; quality := q0; attempts := 0;
             formatOpts := optionsAt (outputFormatOf cfg) q0 |} ;;
   finishCompression sys cfg filePath (needsResize cfg) s).
Proof.
  unfold compressWithRatio_try. rewrite planResize_again.
  destruct (getImageDimensions sys filePath) as [t [d|]]; [|reflexivity].
  pose proof (planResizeAgain_trace (sharp (FromPath filePath))) as Ht.
  destruct (planResizeAgain sys cfg (sharp (FromPath filePath)))
    as [t' [i|]]; simpl in Ht; subst t'; reflexivity.
Qed.

(** The encodes of one [compressWithRatio]: the first attempt, then those
    of the loop. *)
Lemma compressWithRatio_attempts (filePath : string) (originalSize : Z) :
  attemptsOf (trace (compressWithRatio sys cfg filePath originalSize)) =
  match result (planResizeAgain sys cfg (sharp (FromPath filePath))) with
  | None => []
  | Some inst =>
      let q0 := firstQuality originalSize in
      let call := {| instance := inst;
                     encoder := encoderFor (outputFormatOf cfg);
                     options := optionsAt (outputFormatOf cfg) q0 |} in
      {| att_n := 0; att_quality := q0; att_call := call;
         att_result := toBuffer sys 0 call |}
      :: match toBuffer sys 0 call with
         | None => []
         | Some b =>
             attemptsOf
               (trace (refineLoop sys cfg filePath (outputFormatOf cfg)
                         {| compressedBuffer := b; quality := q0;
                            attempts := 0;
                            formatOpts := optionsAt (outputFormatOf cfg) q0 |}))
         end
  end.
Proof.
  unfold compressWithRatio.
  rewrite trace_bind. simpl.
  rewrite trace_try_catch, attemptsOf_app.
  match goal with
  | |- _ ++ attemptsOf ?x = _ =>
      assert (attemptsOf x = []) as -> by (destruct (result _); reflexivity)
  end.
  rewrite app_nil_r, compressWithRatio_try_eq.
  destruct (getImageDimensions_attempts filePath) as [Hd [d Hr]].
  rewrite trace_bind, attemptsOf_app, Hd, Hr. cbn [app].
  rewrite trace_log_bind. cbv zeta. rewrite trace_log_bind.
  cbn [attemptsOf].
  rewrite trace_bind, attemptsOf_app, planResizeAgain_trace.
  cbn [app attemptsOf].
  destruct (result (planResizeAgain sys cfg (sharp (FromPath filePath))))
    as [inst|]; [|reflexivity].
  rewrite trace_bind. unfold encode at 1 2.
  cbn [trace result fst snd app attemptsOf].
  f_equal.
  destruct (toBuffer sys 0 _) as [b|]; [|reflexivity].
  rewrite trace_bind, attemptsOf_app.
  destruct (result (refineLoop _ _ _ _ _)) as [s|].
  - now rewrite finishCompression_attempts, app_nil_r.
  - now rewrite app_nil_r.
Qed.

End Search.

(** ** Quality estimator *)

Lemma Math_round_nearest (v : Q) : nearestInteger v (Math_round v).
Proof.
  unfold nearestInteger, Math_round.
  pose proof (Qfloor_le (v + (1 # 2))) as Hlo.
  pose proof (Qlt_floor (v + (1 # 2))) as Hhi.
  rewrite inject_Z_plus in Hhi. change (inject_Z 1) with 1%Q in Hhi.
  split; lra.
Qed.

Lemma Qle_bool_false (x y : Q) : Qle_bool x y = false -> (y < x)%Q.
Proof.
  intros H. apply Qnot_le_lt. intros Hle.
  apply Qle_bool_iff in Hle. congruence.
Qed.

Lemma estimateQuality_piecewise (r : Q) :
  exists v, piecewise r v /\ estimateQuality r = Math_round v.
Proof.
  unfold estimateQuality, piecewise.
  destruct (Qle_bool 0.8 r) eqn:H1.
  { apply Qle_bool_iff in H1. exists (85 + (r - 0.8) * 50)%Q.
    split; [left; split; [exact H1 | reflexivity] | reflexivity]. }
  apply Qle_bool_false in H1.
  destruct (Qle_bool 0.5 r) eqn:H2.
  { apply Qle_bool_iff in H2. exists (70 + (r - 0.5) * 50)%Q.
    split; [right; left; split; [exact H2 | split; [exact H1 | reflexivity]]
           | reflexivity]. }
  apply Qle_bool_false in H2.
  destruct (Qle_bool 0.3 r) eqn:H3.
  { apply Qle_bool_iff in H3. exists (50 + (r - 0.3) * 100)%Q.
    split; [right; right; left;
            split; [exact H3 | split; [exact H2 | reflexivity]]
           | reflexivity]. }
  apply Qle_bool_false in H3.
  exists (30 + r * 66.7)%Q.
  split; [right; right; right; split; [exact H3 | reflexivity] | reflexivity].
Qed.

Lemma clampQuality_clampTo (n : Z) : clampQuality n = clampTo 10 95 n.
Proof.
  unfold clampQuality, clampTo.
  destruct (n <? 10) eqn:H1; destruct (95 <? n) eqn:H2;
    try apply Z.ltb_lt in H1; try apply Z.ltb_lt in H2;
    try apply Z.ltb_ge in H1; try apply Z.ltb_ge in H2; lia.
Qed.

Lemma clampQuality_range (n : Z) : 10 <= clampQuality n <= 95.
Proof. unfold clampQuality. lia. Qed.

Lemma seedQuality_high (r : Q) : (0.8 <= r)%Q -> 85 <= seedQuality r <= 95.
Proof.
  intros H. unfold seedQuality, clampQuality, estimateQuality.
  apply Qle_bool_iff in H. rewrite H. apply Qle_bool_iff in H.
  assert (85 <= Math_round (85 + (r - 0.8) * 50)).
  { change 85 with (Qfloor (inject_Z 85)) at 1. unfold Math_round.
    apply Qfloor_resp_le. change (inject_Z 85) with 85%Q. lra. }
  lia.
Qed.

(** ** Chains of refinements *)

Lemma chain_tail (a : Attempt) (l : list Attempt) :
  Sorted refinementOf (a :: l) ->
  Sorted refinementOf l /\
  match l with [] => True | b :: _ => refinementOf a b end.
Proof.
  intros H. apply Sorted_inv in H as [Hs Hh]. split; [exact Hs|].
  destruct l; [exact I | now apply HdRel_inv in Hh].
Qed.

(** Along a chain the counter goes up by one and the quality down by ten. *)
Lemma chain_seq (l : list Attempt) : forall a,
  Sorted refinementOf (a :: l) ->
  map att_n (a :: l)
    = map (fun k => att_n a + Z.of_nat k) (seq 0 (S (List.length l)))
  /\ map att_quality (a :: l)
    = map (fun k => att_quality a - 10 * Z.of_nat k) (seq 0 (S (List.length l))).
Proof.
  induction l as [|b l IH]; intros a H.
  - simpl. rewrite Z.add_0_r, Z.sub_0_r. split; reflexivity.
  - apply chain_tail in H as [Hs (_ & _ & _ & Hq & Hn)].
    destruct (IH b Hs) as [IHn IHq].
    change (seq 0 (S (List.length (b :: l)))) with (0%nat :: seq 1 (S (List.length l))).
    rewrite <- seq_shift, !map_cons, !map_map.
    change (map att_n (b :: l)) with (att_n b :: map att_n l) in IHn.
    change (map att_quality (b :: l))
      with (att_quality b :: map att_quality l) in IHq.
    rewrite IHn, IHq, Hn, Hq. simpl Z.of_nat at 1 3.
    rewrite Z.add_0_r, Z.sub_0_r.
    split; f_equal; apply map_ext; intros k; lia.
Qed.

(** A chain that starts at counter [n] has at most [5 - n] refinements. *)
Lemma chain_length (l : list Attempt) : forall a,
  Sorted refinementOf (a :: l) -> 0 <= att_n a ->
  (List.length l <= Z.to_nat (5 - att_n a))%nat.
Proof.
  induction l as [|b l IH]; intros a H Hn; cbn [List.length]; [lia|].
  apply chain_tail in H as [Hs (_ & _ & Hlt & _ & Hb)].
  specialize (IH b Hs). rewrite Hb in IH. lia.
Qed.

(** Every refinement of a chain has a quality of at least one, and at most
    the quality the chain started from. *)
Lemma chain_quality (l : list Attempt) : forall a,
  Sorted refinementOf (a :: l) ->
  Forall (fun b => 1 <= att_quality b <= att_quality a) l.
Proof.
  induction l as [|b l IH]; intros a H; constructor.
  - apply chain_tail in H as [_ (_ & Hq & _ & Hb & _)]. lia.
  - pose proof H as H'.
    apply chain_tail in H as [Hs (_ & Hq & _ & Hb & _)].
    eapply Forall_impl; [|apply (IH b Hs)]. simpl. intros c Hc. lia.
Qed.

Section SearchProperties.

Variable sys : System.
Variable cfg : Config.

(** The encodes of the loop continue the chain of the attempt that
    produced the loop's initial state. *)
Lemma refineLoop_chain (filePath outputFormat : string) (s : LoopState) :
  forall e0,
    att_n e0 = attempts s -> att_quality e0 = quality s ->
    att_result e0 = Some (compressedBuffer s) ->
    Sorted refinementOf
      (e0 :: attemptsOf (trace (refineLoop sys cfg filePath outputFormat s))).
Proof.
  pattern s, (refineLoop sys cfg filePath outputFormat s).
  apply refineLoop_ind; clear s.
  - intros s _ e0 _ _ _. simpl. repeat constructor.
  - intros s _ _ e0 _ _ _. simpl. repeat constructor.
  - intros s inst call Hg _ _ _ e0 Hn Hq Hr. simpl.
    unfold loopGuard in Hg.
    apply andb_prop in Hg as [Hg H5]. apply andb_prop in Hg as [Hsz H10].
    apply Z.ltb_lt in H5, H10, Hsz.
    repeat constructor; simpl; try lia. eauto.
  - intros s inst call b s' m Hg _ _ _ -> IH e0 Hn Hq Hr. simpl.
    unfold loopGuard in Hg.
    apply andb_prop in Hg as [Hg H5]. apply andb_prop in Hg as [Hsz H10].
    apply Z.ltb_lt in H5, H10, Hsz.
    constructor.
    + apply IH; reflexivity.
    + repeat constructor; simpl; try lia. eauto.
Qed.

(** The shape of every call made by the loop. *)
Lemma refineLoop_calls (filePath outputFormat : string) (s : LoopState) :
  Forall
    (fun a =>
       exists inst,
         result (planResizeAgain sys cfg (sharp (FromPath filePath)))
           = Some inst
         /\ att_call a = {| instance := inst;
                            encoder := encoderFor outputFormat;
                            options := optionsAt outputFormat (att_quality a) |})
    (attemptsOf (trace (refineLoop sys cfg filePath outputFormat s))).
Proof.
  pattern s, (refineLoop sys cfg filePath outputFormat s).
  apply refineLoop_ind; clear s; simpl.
  - constructor.
  - constructor.
  - intros s inst call _ Hp -> _. repeat constructor. eauto.
  - intros s inst call b s' m _ Hp -> _ _ IH. constructor; eauto.
Qed.

(** A failed encode in the loop ends the loop with an exception. *)
Lemma refineLoop_failure (filePath outputFormat : string) (s : LoopState) :
  Exists (fun a => att_result a = None)
    (attemptsOf (trace (refineLoop sys cfg filePath outputFormat s))) ->
  result (refineLoop sys cfg filePath outputFormat s) = None.
Proof.
  pattern s, (refineLoop sys cfg filePath outputFormat s).
  apply refineLoop_ind; clear s; simpl.
  - intros s _ H. inversion H.
  - reflexivity.
  - reflexivity.
  - intros s inst call b s' m _ _ _ _ _ IH H.
    inversion H as [? ? Hd | ? ? Hd]; subst; [discriminate | auto].
Qed.

End SearchProperties.

(** ** One file: [compressWithRatio] *)

Section FileProperties.

Variable sys : System.
Variable cfg : Config.

(** [compressWithRatio] always returns a size to its caller. *)
Lemma compressWithRatio_result (filePath : string) (originalSize : Z) :
  result (compressWithRatio sys cfg filePath originalSize) =
  match result (compressWithRatio_try sys cfg filePath originalSize) with
  | Some newSize => Some newSize
  | None => Some originalSize
  end.
Proof.
  unfold compressWithRatio. rewrite result_bind. simpl.
  rewrite result_try_catch. reflexivity.
Qed.

Lemma compressWithRatio_returns (filePath : string) (originalSize : Z) :
  exists newSize,
    result (compressWithRatio sys cfg filePath originalSize) = Some newSize.
Proof.
  rewrite compressWithRatio_result. destruct (result _); eauto.
Qed.

(** The encodes of one file form a chain that starts at counter [0] with
    the seed quality. *)
Lemma compressWithRatio_chain (filePath : string) (originalSize : Z) :
  let atts :=
    attemptsOf (trace (compressWithRatio sys cfg filePath originalSize)) in
  Sorted refinementOf atts
  /\ match atts with
     | [] => True
     | a :: _ => att_n a = 0 /\ att_quality a = firstQuality originalSize
     end.
Proof.
  cbv zeta. rewrite compressWithRatio_attempts.
  destruct (result (planResizeAgain sys cfg (sharp (FromPath filePath))))
    as [inst|]; [|split; [constructor | exact I]].
  cbv zeta. split; [|split; reflexivity].
  destruct (toBuffer sys 0 _) as [b|] eqn:Hb.
  - apply refineLoop_chain; simpl; auto.
  - repeat constructor.
Qed.

(** The shape of every call made for one file. *)
Lemma compressWithRatio_calls (filePath : string) (originalSize : Z) :
  Forall
    (fun a =>
       exists inst,
         result (planResizeAgain sys cfg (sharp (FromPath filePath)))
           = Some inst
         /\ att_call a = {| instance := inst;
                            encoder := encoderFor (outputFormatOf cfg);
                            options := optionsAt (outputFormatOf cfg)
                                         (att_quality a) |})
    (attemptsOf (trace (compressWithRatio sys cfg filePath originalSize))).
Proof.
  rewrite compressWithRatio_attempts.
  destruct (result (planResizeAgain sys cfg (sharp (FromPath filePath))))
    as [inst|] eqn:Hp; [|constructor].
  cbv zeta. constructor; [simpl; eauto|].
  destruct (toBuffer sys 0 _) as [b|]; [|constructor].
  pose proof (refineLoop_calls sys cfg filePath (outputFormatOf cfg)) as H.
  rewrite Hp in H. apply H.
Qed.

(** A failed encode, at whatever attempt, makes the [try] block throw. *)
Lemma compressWithRatio_try_failure (filePath : string) (originalSize : Z) :
  Exists (fun a => att_result a = None)
    (attemptsOf (trace (compressWithRatio sys cfg filePath originalSize))) ->
  result (compressWithRatio_try sys cfg filePath originalSize) = None.
Proof.
  rewrite compressWithRatio_attempts, compressWithRatio_try_eq.
  destruct (getImageDimensions_attempts sys filePath) as [_ [d Hd]].
  rewrite result_bind, Hd, result_log_bind. cbv zeta.
  rewrite result_log_bind, result_bind.
  destruct (result (planResizeAgain sys cfg (sharp (FromPath filePath))))
    as [inst|]; [|reflexivity].
  rewrite result_bind. unfold encode at 1. cbn [result snd].
  destruct (toBuffer sys 0 _) as [b|] eqn:Hb; [|reflexivity].
  intros H. inversion H as [? ? Hd0 | ? ? Hl]; subst.
  - simpl in Hd0. congruence.
  - rewrite result_bind. now rewrite (refineLoop_failure _ _ _ _ _ Hl).
Qed.

End FileProperties.

(** ** The batch: [processFile], [forEachFile], [compressImages] *)

Section BatchProperties.

Variable sys : System.
Variable cfg : Config.

Lemma getFileSize_eq (file : string) :
  getFileSize sys file =
  (match statSync sys file with
   | Some _ => []
   | None => [ev_console (msg_size_error file)]
   end, Some (readSize sys file)).
Proof.
  unfold getFileSize, readSize. destruct (statSync sys file); reflexivity.
Qed.

Lemma getFileSize_no_call (file : string) :
  compressCalls (trace (getFileSize sys file)) = [].
Proof. rewrite getFileSize_eq. destruct (statSync sys file); reflexivity. Qed.

Lemma getFileSize_no_encode (file : string) :
  attemptsOf (trace (getFileSize sys file)) = [].
Proof. rewrite getFileSize_eq. destruct (statSync sys file); reflexivity. Qed.

(** The three ways through the loop body. *)
Lemma processFile_cases (file : string) (c : Counts) :
  let sz := readSize sys file in
  let t0 := trace (getFileSize sys file) in
  (sz = 0 /\ skips cfg file sz = true
   /\ processFile sys cfg file c
      = (t0 ++ [ev_console (msg_skip_unreadable file)], Some c))
  \/ (sz <> 0 /\ skips cfg file sz = true
      /\ processFile sys cfg file c
         = (t0 ++ [ev_console (msg_skip_small file sz)],
            Some {| processedCount := processedCount c;
                    skippedCount := skippedCount c + 1 |}))
  \/ (sz <> 0 /\ skips cfg file sz = false
      /\ exists newSize,
          result (compressWithRatio sys cfg file sz) = Some newSize
          /\ processFile sys cfg file c
             = (t0 ++ ev_console (msg_processing file sz)
                   :: trace (compressWithRatio sys cfg file sz)
                   ++ [ev_console (if newSize <? sz
                                   then msg_compressed file newSize
                                   else msg_failed file)],
                Some (if newSize <? sz
                      then {| processedCount := processedCount c + 1;
                              skippedCount := skippedCount c |}
                      else c))).
Proof.
  cbv zeta. unfold processFile, skips. rewrite getFileSize_eq.
  set (t0 := match statSync sys file with
             | Some _ => []
             | None => [ev_console (msg_size_error file)]
             end).
  set (sz := readSize sys file).
  clearbody sz t0. cbn [bind trace fst].
  destruct (sz =? 0) eqn:Hz.
  - left. apply Z.eqb_eq in Hz. repeat split; auto.
  - apply Z.eqb_neq in Hz. cbn [orb].
    destruct ((sz <=? TARGET_SIZE) && negb (needsFormatConversion cfg file)
              && negb (needsResize cfg)).
    + right; left. repeat split; auto.
    + right; right. split; [exact Hz|]. split; [reflexivity|].
      destruct (compressWithRatio_returns sys cfg file sz) as [newSize Hr].
      exists newSize. split; [exact Hr|].
      unfold log, emit. cbn [bind].
      destruct (compressWithRatio sys cfg file sz) as [t r].
      simpl in Hr. subst r. cbn [bind trace fst].
      destruct (newSize <? sz); simpl; reflexivity.
Qed.

Lemma processFile_returns (file : string) (c : Counts) :
  exists c', result (processFile sys cfg file c) = Some c'.
Proof.
  destruct (processFile_cases file c)
    as [(_ & _ & ->) | [(_ & _ & ->) | (_ & _ & n & _ & ->)]];
    simpl; eauto.
Qed.

Lemma forEachFile_returns (imageFiles : list string) : forall c,
  exists c', result (forEachFile sys cfg imageFiles c) = Some c'.
Proof.
  induction imageFiles as [|f rest IH]; intros c; simpl; [eauto|].
  rewrite result_bind.
  destruct (processFile_returns f c) as [c1 ->]. apply IH.
Qed.

(** The loop over the files handles the files one after the other, each
    from the counters its predecessors left. *)
Lemma forEachFile_app (pre post : list string) : forall c,
  forEachFile sys cfg (pre ++ post) c =
  (c1 <- forEachFile sys cfg pre c ;; forEachFile sys cfg post c1).
Proof.
  induction pre as [|f pre IH]; intros c; simpl.
  - destruct (forEachFile sys cfg post c); reflexivity.
  - destruct (processFile sys cfg f c) as [t [c1|]]; simpl; [|reflexivity].
    rewrite IH.
    destruct (forEachFile sys cfg pre c1) as [t1 [c2|]]; simpl.
    + destruct (forEachFile sys cfg post c2). now rewrite app_assoc.
    + reflexivity.
Qed.

(** Reading a whole batch trace file by file.  [g] is a reader of traces
    that ignores console lines, and [h] what it reads in the trace of one
    file. *)
Lemma compressImages_read {X} (g : list Event -> list X)
    (h : string -> list X) :
  g [] = [] ->
  (forall t1 t2, g (t1 ++ t2) = g t1 ++ g t2) ->
  (forall m, g [ev_console m] = []) ->
  (forall f c, g (trace (processFile sys cfg f c)) = h f) ->
  g (trace (compressImages sys cfg)) =
  match readdirSync sys "." with
  | Some files => flat_map h (filter isImageFile files)
  | None => []
  end.
Proof.
  intros Hnil Happ Hcon Hfile.
  assert (Hloop : forall files c,
             g (trace (forEachFile sys cfg files c)) = flat_map h files).
  { induction files as [|f rest IH]; intros c; simpl; [exact Hnil|].
    rewrite trace_bind, Happ, Hfile.
    destruct (processFile_returns f c) as [c1 ->]. now rewrite IH. }
  unfold compressImages. rewrite trace_try_catch, Happ.
  match goal with
  | |- _ ++ g ?x = _ =>
      assert (g x = []) as ->
        by (destruct (result _); [apply Hnil | apply Hcon])
  end.
  assert (Hskip : forall m t, g (ev_console m :: t) = g t).
  { intros m t. change (ev_console m :: t) with ([ev_console m] ++ t).
    now rewrite Happ, Hcon. }
  rewrite app_nil_r, !trace_log_bind, !Hskip, trace_bind, Happ.
  destruct (readdirSync sys ".") as [files|]; cbn [trace result fst snd ret throw];
    [|now rewrite Hnil].
  rewrite Hnil. cbn [app]. cbv zeta.
  destruct (List.length (filter isImageFile files) =? 0)%nat eqn:Hlen.
  - apply Nat.eqb_eq in Hlen. apply length_zero_iff_nil in Hlen.
    rewrite Hlen. cbn [flat_map]. apply Hcon.
  - rewrite trace_log_bind, Hskip, trace_bind, Happ, Hloop.
    destruct (forEachFile_returns (filter isImageFile files)
                {| processedCount := 0; skippedCount := 0 |}) as [c1 ->].
    rewrite trace_log_bind, Hskip. cbn [trace log emit fst].
    now rewrite Hcon, app_nil_r.
Qed.

End BatchProperties.
(** ** What one file contributes to the batch trace *)

Section FileReads.

Variable sys : System.
Variable cfg : Config.

Lemma refineLoop_compressCalls (filePath outputFormat : string)
    (s : LoopState) :
  compressCalls (trace (refineLoop sys cfg filePath outputFormat s)) = [].
Proof.
  pattern s, (refineLoop sys cfg filePath outputFormat s).
  apply refineLoop_ind; clear s; simpl; auto.
Qed.

Lemma finishCompression_compressCalls (filePath : string) (w : bool)
    (s : LoopState) :
  compressCalls (trace (finishCompression sys cfg filePath w s)) = [].
Proof.
  unfold finishCompression.
  repeat (rewrite ?trace_bind, ?compressCalls_app;
          match goal with
          | |- context [if ?b then _ else _] => destruct b
          | |- context [match metadata ?a ?b with _ => _ end] =>
              destruct (metadata a b)
          | _ => idtac
          end; simpl); reflexivity.
Qed.

(** [compressWithRatio] is entered once, and does not call itself. *)
Lemma compressWithRatio_compressCalls (filePath : string)
    (originalSize : Z) :
  compressCalls (trace (compressWithRatio sys cfg filePath originalSize))
  = [(filePath, originalSize)].
Proof.
  unfold compressWithRatio. rewrite trace_bind. simpl. f_equal.
  rewrite trace_try_catch, compressCalls_app.
  match goal with
  | |- _ ++ compressCalls ?x = _ =>
      assert (compressCalls x = []) as ->
        by (destruct (result _); reflexivity)
  end.
  rewrite app_nil_r, compressWithRatio_try_eq.
  rewrite trace_bind, compressCalls_app.
  assert (compressCalls (trace (getImageDimensions sys filePath)) = [])
    as -> by (unfold getImageDimensions; destruct (metadata sys _);
              reflexivity).
  destruct (result (getImageDimensions sys filePath)); [|reflexivity].
  rewrite trace_log_bind. cbv zeta. rewrite trace_log_bind.
  cbn [compressCalls app].
  rewrite trace_bind, compressCalls_app, planResizeAgain_trace.
  destruct (result (planResizeAgain sys cfg _)) as [inst|]; [|reflexivity].
  rewrite trace_bind, compressCalls_app.
  unfold encode at 1 2. cbn [trace result fst snd].
  destruct (toBuffer sys 0 _) as [b|]; [|reflexivity].
  rewrite trace_bind, compressCalls_app, refineLoop_compressCalls.
  destruct (result (refineLoop _ _ _ _ _)); [|reflexivity].
  now rewrite finishCompression_compressCalls.
Qed.

Lemma processFile_compressCalls (file : string) (c : Counts) :
  compressCalls (trace (processFile sys cfg file c)) =
  if skips cfg file (readSize sys file) then []
  else [(file, readSize sys file)].
Proof.
  destruct (processFile_cases sys cfg file c)
    as [(_ & -> & ->) | [(_ & -> & ->) | (_ & -> & n & _ & ->)]];
    cbn [trace fst]; rewrite compressCalls_app, getFileSize_no_call; simpl;
    [reflexivity | reflexivity |].
  rewrite compressCalls_app, compressWithRatio_compressCalls.
  reflexivity.
Qed.

Lemma processFile_attempts (file : string) (c : Counts) :
  attemptsOf (trace (processFile sys cfg file c)) =
  if skips cfg file (readSize sys file) then []
  else attemptsOf (trace (compressWithRatio sys cfg file (readSize sys file))).
Proof.
  destruct (processFile_cases sys cfg file c)
    as [(_ & -> & ->) | [(_ & -> & ->) | (_ & -> & n & _ & ->)]];
    cbn [trace fst]; rewrite attemptsOf_app, getFileSize_no_encode; simpl;
    [reflexivity | reflexivity |].
  now rewrite attemptsOf_app, app_nil_r.
Qed.

End FileReads.

(** ** The configuration the program runs with *)

Lemma parseArg_MAX_DIMENSION (c : Config) (arg : string) :
  MAX_DIMENSION (parseArg c arg) = MAX_DIMENSION c.
Proof.
  unfold parseArg.
  destruct (startsWith arg "w="); [reflexivity|].
  destruct (startsWith arg "h="); [reflexivity|].
  destruct (startsWith arg "t="); reflexivity.
Qed.

Lemma parseArgs_MAX_DIMENSION (args : list string) : forall c,
  MAX_DIMENSION (fold_left parseArg args c) = MAX_DIMENSION c.
Proof.
  induction args as [|a args IH]; intros c; simpl; [reflexivity|].
  now rewrite IH, parseArg_MAX_DIMENSION.
Qed.

(** Whatever the arguments, a resize is in effect: either a width or a
    height was given, or the default bound of 1920 stays on. *)
Lemma needsResize_loadConfig (args : list string) :
  needsResize (loadConfig args) = true.
Proof.
  unfold loadConfig, needsResize.
  destruct (truthy_num (targetWidth (fold_left parseArg args initialConfig))
            || truthy_num
                 (targetHeight (fold_left parseArg args initialConfig)))
    eqn:H; cbn [targetWidth targetHeight MAX_DIMENSION].
  - now rewrite H.
  - now rewrite H, parseArgs_MAX_DIMENSION.
Qed.

Lemma noOptions_parseArgs (args : list string) : forall c,
  noOptions args = true -> fold_left parseArg args c = c.
Proof.
  induction args as [|a args IH]; intros c H; simpl; [reflexivity|].
  simpl in H. apply andb_prop in H as [Ha H].
  apply negb_true_iff in Ha.
  apply orb_false_elim in Ha as [Ha Ht].
  apply orb_false_elim in Ha as [Hw Hh].
  unfold parseArg at 2. rewrite Hw, Hh, Ht. now apply IH.
Qed.

(** With none of the three options the variables keep their initial
    values. *)
Lemma noOptions_loadConfig (args : list string) :
  noOptions args = true -> loadConfig args = initialConfig.
Proof.
  intros H. unfold loadConfig. now rewrite (noOptions_parseArgs args _ H).
Qed.

(** ** Batch driver: which files are skipped *)

(** C1, as amended.  The batch driver leaves a file without calling
    [compressWithRatio] exactly when the size reads as 0, or the size is at
    most the target and no format conversion is needed and no resize is in
    effect, a resize being in effect when a width or height was given or
    [MAX_DIMENSION] is positive.  With the configuration read from the
    command line a resize is always in effect, so the files left alone are
    exactly those whose size reads as 0. *)
Theorem skip_decision (sys : System) (cfg : Config) :
  (forall file c,
      compressCalls (trace (processFile sys cfg file c)) =
      (if skips cfg file (readSize sys file) then []
       else [(file, readSize sys file)])
      /\ attemptsOf (trace (processFile sys cfg file c)) =
         (if skips cfg file (readSize sys file) then []
          else attemptsOf
                 (trace (compressWithRatio sys cfg file (readSize sys file)))))
  /\ compressCalls (trace (compressImages sys cfg)) =
     match readdirSync sys "." with
     | Some files =>
         flat_map (fun file => if skips cfg file (readSize sys file) then []
                               else [(file, readSize sys file)])
           (filter isImageFile files)
     | None => []
     end
  /\ (forall args file sz, skips (loadConfig args) file sz = (sz =? 0)).
Proof.
  split; [|split].
  - intros file c. split.
    + apply processFile_compressCalls.
    + apply processFile_attempts.
  - apply compressImages_read; auto using compressCalls_app.
    intros f c. apply processFile_compressCalls.
  - intros args file sz. unfold skips.
    rewrite needsResize_loadConfig. cbn [negb].
    now rewrite andb_false_r, orb_false_r.
Qed.

(** The claim as stated fails: with no option on the command line, a
    50000-byte PNG, under the target, is compressed again. *)
Lemma under_target_file_not_skipped :
  ~ (forall (sys : System) (args : list string) (file : string) (c : Counts),
        noOptions args = true ->
        0 < readSize sys file <= TARGET_SIZE ->
        compressCalls (trace (processFile sys (loadConfig args) file c)) = []).
Proof.
  intros H.
  specialize (H smallWorld [] "a.png"
                {| processedCount := 0; skippedCount := 0 |} eq_refl).
  vm_compute in H. discriminate H. split; [reflexivity | discriminate].
Qed.

(** ** Output format *)

(** C3, as amended.  When none of the [w=], [h=], [t=] arguments is
    given, every encode of every image uses the JPEG encoder, whatever the
    format of the source. *)
Theorem no_options_encode_jpeg (sys : System) (args : list string) :
  noOptions args = true ->
  Forall (fun a => encoder (att_call a) = jpeg)
    (attemptsOf (trace (main sys args))).
Proof.
  intros H. unfold main. rewrite (noOptions_loadConfig args H).
  rewrite (compressImages_read sys initialConfig attemptsOf
             (fun f => if skips initialConfig f (readSize sys f) then []
                       else attemptsOf
                              (trace (compressWithRatio sys initialConfig f
                                        (readSize sys f)))));
    auto using attemptsOf_app, processFile_attempts.
  destruct (readdirSync sys "."); [|constructor].
  apply Forall_flat_map, Forall_forall. intros f _.
  destruct (skips initialConfig f (readSize sys f)); [constructor|].
  eapply Forall_impl; [|apply compressWithRatio_calls].
  intros a [inst [_ ->]]. reflexivity.
Qed.

Lemma no_options_encode_jpeg_witness :
  Forall (fun a => encoder (att_call a) = jpeg)
    (attemptsOf (trace (main smallWorld []))).
Proof. apply (no_options_encode_jpeg smallWorld []). reflexivity. Defined.

(** The claim as stated fails: with no option on the command line the PNG
    [a.png] is encoded as JPEG. *)
Lemma source_format_not_preserved :
  ~ (forall (sys : System) (args : list string) (file : string)
            (a : Attempt),
        noOptions args = true ->
        In a (attemptsOf (trace (main sys args))) ->
        input (instance (att_call a)) = FromPath file ->
        sourceFormat file = Some (encoder (att_call a))).
Proof.
  intros H.
  pose (a := hd {| att_n := 0; att_quality := 0;
                   att_call := {| instance := sharp (FromPath "");
                                  encoder := png;
                                  options := quality_opt 0 |};
                   att_result := None |}
               (attemptsOf (trace (main smallWorld [])))).
  specialize (H smallWorld [] "a.png" a eq_refl).
  assert (Ha : sourceFormat "a.png" = Some (encoder (att_call a))).
  { apply H; vm_compute; auto. }
  vm_compute in Ha. discriminate Ha.
Qed.

(** ** [compressWithRatio] is called on files of positive size only *)

Lemma sizeRatioOf_positive (sz : Z) :
  0 < sz ->
  (0 < sizeRatioOf sz)%Q
  /\ (sizeRatioOf sz * inject_Z sz == inject_Z TARGET_SIZE)%Q.
Proof.
  intros H. unfold sizeRatioOf.
  assert (Hq : (0 < inject_Z sz)%Q)
    by (change 0%Q with (inject_Z 0); now rewrite <- Zlt_Qlt).
  split.
  - apply Qlt_shift_div_l; [exact Hq|]. rewrite Qmult_0_l. reflexivity.
  - field. intros E. rewrite E in Hq. discriminate Hq.
Qed.

Lemma readSize_nonneg (sys : System) (file : string) :
  0 <= readSize sys file.
Proof. unfold readSize. destruct (statSync sys file); lia. Qed.

(** C10.  A file whose size reads as 0, because [statSync] fails or
    because the file is empty, never reaches [compressWithRatio]; so every
    call of [compressWithRatio] in a batch has a positive [originalSize],
    and its size ratio is a positive number that is the quotient of the
    target by that size. *)
Theorem compress_only_positive_size (sys : System) (cfg : Config) :
  (forall file c,
      statSync sys file = None \/ statSync sys file = Some 0%N ->
      compressCalls (trace (processFile sys cfg file c)) = []
      /\ result (processFile sys cfg file c) = Some c)
  /\ (forall file sz,
         In (ev_compress file sz) (trace (compressImages sys cfg)) ->
         0 < sz
         /\ (0 < sizeRatioOf sz)%Q
         /\ (sizeRatioOf sz * inject_Z sz == inject_Z TARGET_SIZE)%Q).
Proof.
  split.
  - intros file c Hs.
    assert (Hz : readSize sys file = 0)
      by (unfold readSize; destruct Hs as [-> | ->]; reflexivity).
    rewrite processFile_compressCalls. unfold skips. rewrite Hz.
    split; [reflexivity|].
    destruct (processFile_cases sys cfg file c)
      as [(_ & _ & ->) | [(Hn & _) | (Hn & _)]];
      [reflexivity | contradiction | contradiction].
  - intros file sz Hin. apply compressCalls_In in Hin.
    rewrite (compressImages_read sys cfg compressCalls
               (fun f => if skips cfg f (readSize sys f) then []
                         else [(f, readSize sys f)])) in Hin;
      auto using compressCalls_app, processFile_compressCalls.
    destruct (readdirSync sys ".") as [files|]; [|contradiction].
    apply in_flat_map in Hin as [f [_ Hf]].
    destruct (skips cfg f (readSize sys f)) eqn:Hsk; [contradiction|].
    destruct Hf as [Hf | []]. injection Hf as -> <-.
    unfold skips in Hsk. apply orb_false_elim in Hsk as [Hz _].
    apply Z.eqb_neq in Hz. pose proof (readSize_nonneg sys file).
    assert (0 < readSize sys file) by lia.
    split; [assumption | now apply sizeRatioOf_positive].
Qed.

Lemma compress_only_positive_size_witness :
  (compressCalls
     (trace (processFile (sampleSystem ["a.png"] 0 (fun _ => None))
               initialConfig "a.png"
               {| processedCount := 0; skippedCount := 0 |})) = []
   /\ result (processFile (sampleSystem ["a.png"] 0 (fun _ => None))
                initialConfig "a.png"
                {| processedCount := 0; skippedCount := 0 |})
      = Some {| processedCount := 0; skippedCount := 0 |})
  /\ 0 < 50000
  /\ (0 < sizeRatioOf 50000)%Q
  /\ (sizeRatioOf 50000 * inject_Z 50000 == inject_Z TARGET_SIZE)%Q.
Proof.
  split.
  - apply (proj1 (compress_only_positive_size
                    (sampleSystem ["a.png"] 0 (fun _ => None))
                    initialConfig)).
    right. reflexivity.
  - apply (proj2 (compress_only_positive_size smallWorld initialConfig)
             "a.png").
    vm_compute. auto 10.
Defined.

(** ** Quality estimator: the seed of a file *)

Lemma sizeRatioOf_one (originalSize : Z) :
  0 < originalSize -> (sizeRatioOf originalSize == 1)%Q ->
  originalSize = 102400.
Proof.
  intros Hpos Hr. destruct (sizeRatioOf_positive originalSize Hpos) as [_ Hm].
  rewrite Hr, Qmult_1_l in Hm. unfold Qeq, TARGET_SIZE in Hm.
  cbn [Qnum Qden inject_Z] in Hm. lia.
Qed.

Lemma sizeRatioOf_four_fifths (originalSize : Z) :
  0 < originalSize -> (sizeRatioOf originalSize == 0.8)%Q ->
  originalSize = 128000.
Proof.
  intros Hpos Hr. destruct (sizeRatioOf_positive originalSize Hpos) as [_ Hm].
  rewrite Hr in Hm. unfold Qeq, TARGET_SIZE in Hm.
  cbn [Qmult Qnum Qden inject_Z Pos.mul] in Hm. lia.
Qed.

(** C4.  For every file of positive size, with the size ratio the program
    forms for it, the target divided by the size of the file, the seed is
    the value of the segment formula of the table, rounded to the nearest
    integer and then clamped to the interval from 10 to 95; when the ratio
    is at least 0.8 the seed lies between 85 and 95, it is 95 at ratio 1
    and 85 at ratio 0.8; and the first encode of the file is made at the
    seed. *)
Theorem seed_rounded_clamped_piecewise (sys : System) (cfg : Config)
    (filePath : string) (originalSize : Z) :
  0 < originalSize ->
  (exists v n,
      piecewise (sizeRatioOf originalSize) v /\ nearestInteger v n
      /\ estimateQuality (sizeRatioOf originalSize) = n
      /\ firstQuality originalSize = clampTo 10 95 n)
  /\ ((0.8 <= sizeRatioOf originalSize)%Q ->
      85 <= firstQuality originalSize <= 95)
  /\ ((sizeRatioOf originalSize == 1)%Q -> firstQuality originalSize = 95)
  /\ ((sizeRatioOf originalSize == 0.8)%Q -> firstQuality originalSize = 85)
  /\ (forall a l,
         attemptsOf (trace (compressWithRatio sys cfg filePath originalSize))
         = a :: l ->
         att_quality a = firstQuality originalSize).
Proof.
  intros Hpos. split; [|split; [|split; [|split]]].
  - destruct (estimateQuality_piecewise (sizeRatioOf originalSize))
      as [v [Hv He]].
    exists v, (Math_round v).
    split; [exact Hv|]. split; [apply Math_round_nearest|].
    split; [exact He|].
    unfold firstQuality, seedQuality. now rewrite He, clampQuality_clampTo.
  - apply seedQuality_high.
  - intros Hr. now rewrite (sizeRatioOf_one originalSize Hpos Hr).
  - intros Hr. now rewrite (sizeRatioOf_four_fifths originalSize Hpos Hr).
  - intros a l Hl.
    destruct (compressWithRatio_chain sys cfg filePath originalSize)
      as [_ Hhd].
    rewrite Hl in Hhd. apply Hhd.
Qed.

Lemma seed_rounded_clamped_piecewise_witness :
  85 <= firstQuality 120000 <= 95
  /\ firstQuality 102400 = 95
  /\ firstQuality 128000 = 85.
Proof.
  split; [|split].
  - apply (seed_rounded_clamped_piecewise smallWorld initialConfig "a.png"
             120000); [lia | vm_compute; discriminate].
  - apply (seed_rounded_clamped_piecewise smallWorld initialConfig "a.png"
             102400); [lia | reflexivity].
  - apply (seed_rounded_clamped_piecewise smallWorld initialConfig "a.png"
             128000); [lia | reflexivity].
Defined.

(** ** Compression search: the sequence of attempts *)

Lemma firstQuality_range (originalSize : Z) :
  10 <= firstQuality originalSize <= 95.
Proof. unfold firstQuality, seedQuality. apply clampQuality_range. Qed.

(** The qualities of one file stay between 1 and the seed. *)
Lemma compressWithRatio_qualities (sys : System) (cfg : Config)
    (filePath : string) (originalSize : Z) :
  Forall (fun a => 1 <= att_quality a <= firstQuality originalSize)
    (attemptsOf (trace (compressWithRatio sys cfg filePath originalSize))).
Proof.
  destruct (compressWithRatio_chain sys cfg filePath originalSize)
    as [Hc Hhd].
  destruct (attemptsOf _) as [|a l]; constructor.
  - destruct Hhd as [_ ->]. pose proof (firstQuality_range originalSize). lia.
  - destruct Hhd as [_ <-]. now apply chain_quality.
Qed.

(** C5.  [compressWithRatio] returns; its encodes form a chain in which
    each refinement follows an attempt that was over the target, with a
    quality above 10 and a counter below 5; the counters are 0, 1, 2, ...
    and the qualities are the seed minus ten times the counter, so they
    only decrease from the clamped seed; at most five refinements follow
    the first attempt. *)
Theorem refinement_loop_bounded (sys : System) (cfg : Config)
    (filePath : string) (originalSize : Z) :
  let atts :=
    attemptsOf (trace (compressWithRatio sys cfg filePath originalSize)) in
  (exists newSize,
      result (compressWithRatio sys cfg filePath originalSize) = Some newSize)
  /\ Sorted refinementOf atts
  /\ map att_n atts = map Z.of_nat (seq 0 (List.length atts))
  /\ map att_quality atts
     = map (fun k => firstQuality originalSize - 10 * Z.of_nat k)
         (seq 0 (List.length atts))
  /\ (List.length (tl atts) <= 5)%nat
  /\ Forall (fun a => att_quality a <= firstQuality originalSize) atts.
Proof.
  cbv zeta.
  split; [apply compressWithRatio_returns|].
  destruct (compressWithRatio_chain sys cfg filePath originalSize)
    as [Hc Hhd].
  split; [exact Hc|].
  repeat split.
  - destruct (attemptsOf _) as [|a l]; [reflexivity|].
    destruct Hhd as [Hn _].
    destruct (chain_seq l a Hc) as [-> _]. rewrite Hn. reflexivity.
  - destruct (attemptsOf _) as [|a l]; [reflexivity|].
    destruct Hhd as [_ Hq].
    destruct (chain_seq l a Hc) as [_ ->]. rewrite Hq. reflexivity.
  - destruct (attemptsOf _) as [|a l]; [simpl; lia|].
    destruct Hhd as [Hn _]. cbn [tl].
    pose proof (chain_length l a Hc) as Hl. rewrite Hn in Hl.
    specialize (Hl (Z.le_refl 0)). exact Hl.
  - eapply Forall_impl; [|apply compressWithRatio_qualities].
    simpl. intros a Ha. lia.
Qed.

(** ** Compression search: what each encode is given *)

Lemma optionsAt_valid (inst : Sharp) (outputFormat : string) (q : Z)
    (r : option Buffer) (n : Z) :
  1 <= q <= 95 ->
  validCall {| att_n := n; att_quality := q;
               att_call := {| instance := inst;
                              encoder := encoderFor outputFormat;
                              options := optionsAt outputFormat q |};
               att_result := r |}.
Proof.
  intros Hq. unfold validCall, optionsAt, encoderFor.
  cbn [options att_call encoder].
  destruct (outputFormat =? "png")%string.
  - split; [reflexivity|]. split.
    + apply Z.div_pos; lia.
    + assert ((100 - q) / 10 < 10)
        by (apply Z.div_lt_upper_bound; lia). lia.
  - split; [|lia].
    destruct (outputFormat =? "webp")%string; [discriminate|].
    destruct (outputFormat =? "tiff")%string; discriminate.
Qed.

(** Every encode of one file is given parameters of the valid domain. *)
Lemma compressWithRatio_valid (sys : System) (cfg : Config)
    (filePath : string) (originalSize : Z) :
  Forall (fun a => 1 <= att_quality a <= 95 /\ validCall a)
    (attemptsOf (trace (compressWithRatio sys cfg filePath originalSize))).
Proof.
  pose proof (compressWithRatio_qualities sys cfg filePath originalSize)
    as Hq.
  pose proof (compressWithRatio_calls sys cfg filePath originalSize) as Hc.
  rewrite Forall_forall in *. intros a Hin.
  specialize (Hq a Hin). destruct (Hc a Hin) as [inst [_ Hcall]].
  pose proof (firstQuality_range originalSize).
  split; [lia|].
  destruct a as [n q call r]. simpl in *. subst call.
  apply optionsAt_valid. lia.
Qed.

(** C9.  In a whole run, every encode is made while the quality is an
    integer from 1 to 95, and is given either that quality, for an encoder
    other than PNG, or a PNG compression level from 0 to 9. *)
Theorem encode_parameters_valid (sys : System) (args : list string) :
  Forall (fun a => 1 <= att_quality a <= 95 /\ validCall a)
    (attemptsOf (trace (main sys args))).
Proof.
  unfold main.
  rewrite (compressImages_read sys (loadConfig args) attemptsOf
             (fun f => if skips (loadConfig args) f (readSize sys f) then []
                       else attemptsOf
                              (trace (compressWithRatio sys (loadConfig args)
                                        f (readSize sys f)))));
    auto using attemptsOf_app, processFile_attempts.
  destruct (readdirSync sys "."); [|constructor].
  apply Forall_flat_map, Forall_forall. intros f _.
  destruct (skips _ f _); [constructor | apply compressWithRatio_valid].
Qed.

(** C6.  All the encodes of one file, the first attempt and every
    refinement, are made on an instance that reads the original file and
    carries one and the same resize. *)
Theorem resize_and_source_fixed (sys : System) (cfg : Config)
    (filePath : string) (originalSize : Z) :
  exists rz,
    Forall (fun a => instance (att_call a)
                     = {| input := FromPath filePath; resizing := rz |})
      (attemptsOf (trace (compressWithRatio sys cfg filePath originalSize))).
Proof.
  pose proof (compressWithRatio_calls sys cfg filePath originalSize) as Hc.
  destruct (planResizeAgain_fresh sys cfg) as [Hnone | [rz Hrz]].
  - exists None. eapply Forall_impl; [|exact Hc].
    intros a [inst [Hp _]]. rewrite Hnone in Hp. discriminate Hp.
  - exists rz. eapply Forall_impl; [|exact Hc].
    intros a [inst [Hp ->]]. rewrite Hrz in Hp. simpl. congruence.
Qed.

(** C2.  The refinement loop takes the quality below 10: for a
    10240000-byte file the seed is 31, and when no encode gets under the
    target the refinements run at 21, 11 and 1. *)
Theorem quality_falls_below_ten :
  firstQuality 10240000 = 31
  /\ map att_quality (attemptsOf (trace (main stubbornWorld [])))
     = [31; 21; 11; 1]
  /\ map (fun a => options (att_call a))
       (attemptsOf (trace (main stubbornWorld [])))
     = [quality_opt 31; quality_opt 21; quality_opt 11; quality_opt 1].
Proof. vm_compute. auto. Qed.

(** ** Resize planner *)

(** C7.  The resize that [compressWithRatio] applies, on the first attempt
    and in the loop alike, is the one the five rules of the planner give
    for the requested width, the requested height and [MAX_DIMENSION];
    when the rules give no resize the instance is left as it is. *)
Theorem resize_planner_rules (sys : System) (cfg : Config) (inst : Sharp) :
  match resizePlanner (requested (targetWidth cfg))
          (requested (targetHeight cfg)) (MAX_DIMENSION cfg) with
  | Some spec =>
      exists o,
        readResizeOptions o = Some spec
        /\ planResize sys cfg inst = (i <- resize sys inst o ;; ret (i, true))
        /\ planResizeAgain sys cfg inst = resize sys inst o
  | None =>
      planResize sys cfg inst = ret (inst, false)
      /\ planResizeAgain sys cfg inst = ret inst
  end.
Proof.
  unfold planResize, planResizeAgain, resizePlanner, requested, truthy_num.
  destruct (targetWidth cfg) as [[|w]|], (targetHeight cfg) as [[|h]|];
    try destruct (w =? 0); try destruct (h =? 0); cbn [negb orb andb];
    try destruct (0 <? MAX_DIMENSION cfg);
    try (split; reflexivity);
    eexists; (split; [|split; reflexivity]); reflexivity.
Qed.

(** ** Codec failures stay within their file *)

Lemma compressImages_returns (sys : System) (cfg : Config) :
  result (compressImages sys cfg) = Some tt.
Proof.
  unfold compressImages. rewrite result_try_catch.
  destruct (result _) as [[]|]; reflexivity.
Qed.

(** C8.  When an encode fails at any attempt of a file, [compressWithRatio]
    catches the error and returns the original size; the batch loop reports
    the file as failed, leaves the counters as they were, and goes on with
    the files that follow; [compressImages] itself never throws; and any
    other error thrown in the [try] block is answered with the original
    size as well. *)
Theorem codec_failure_contained (sys : System) (cfg : Config) :
  (forall file originalSize,
      Exists (fun a => att_result a = None)
        (attemptsOf (trace (compressWithRatio sys cfg file originalSize))) ->
      result (compressWithRatio sys cfg file originalSize)
      = Some originalSize)
  /\ (forall pre file post c0 c1,
         result (forEachFile sys cfg pre c0) = Some c1 ->
         Exists (fun a => att_result a = None)
           (attemptsOf (trace (processFile sys cfg file c1))) ->
         result (processFile sys cfg file c1) = Some c1
         /\ In (ev_console (msg_failed file))
              (trace (processFile sys cfg file c1))
         /\ trace (forEachFile sys cfg (pre ++ file :: post) c0)
            = trace (forEachFile sys cfg pre c0)
              ++ trace (processFile sys cfg file c1)
              ++ trace (forEachFile sys cfg post c1)
         /\ result (forEachFile sys cfg (pre ++ file :: post) c0)
            = result (forEachFile sys cfg post c1))
  /\ result (compressImages sys cfg) = Some tt
  /\ (forall file originalSize,
         result (compressWithRatio_try sys cfg file originalSize) = None ->
         result (compressWithRatio sys cfg file originalSize)
         = Some originalSize).
Proof.
  assert (Hfile : forall file originalSize,
             Exists (fun a => att_result a = None)
               (attemptsOf
                  (trace (compressWithRatio sys cfg file originalSize))) ->
             result (compressWithRatio sys cfg file originalSize)
             = Some originalSize).
  { intros file originalSize H. rewrite compressWithRatio_result.
    now rewrite (compressWithRatio_try_failure sys cfg file originalSize H). }
  split; [exact Hfile|].
  split; [|split; [apply compressImages_returns|]];
    [|intros file originalSize Hthrow;
      now rewrite compressWithRatio_result, Hthrow].
  intros pre file post c0 c1 Hpre Hex.
  rewrite processFile_attempts in Hex.
  assert (Hbody : result (processFile sys cfg file c1) = Some c1
                  /\ In (ev_console (msg_failed file))
                       (trace (processFile sys cfg file c1))).
  { destruct (processFile_cases sys cfg file c1)
      as [(_ & Hs & _) | [(_ & Hs & _) | (_ & Hs & n & Hn & ->)]];
      rewrite Hs in Hex; try (now inversion Hex).
    rewrite (Hfile _ _ Hex) in Hn. injection Hn as <-.
    rewrite Z.ltb_irrefl. cbn [result trace fst snd]. split; [reflexivity|].
    apply in_or_app. right. right. apply in_or_app. right. now left. }
  destruct Hbody as [Hres Hmsg]. split; [exact Hres|]. split; [exact Hmsg|].
  rewrite forEachFile_app, trace_bind, result_bind, Hpre.
  cbn [forEachFile]. rewrite trace_bind, result_bind, Hres.
  split; reflexivity.
Qed.

Lemma codec_failure_contained_witness :
  result (compressWithRatio failingWorld initialConfig "a.png" 500000)
  = Some 500000
  /\ result (processFile failingWorld initialConfig "b.webp"
               {| processedCount := 0; skippedCount := 0 |})
     = Some {| processedCount := 0; skippedCount := 0 |}
  /\ result (forEachFile failingWorld initialConfig
               (["a.png"] ++ "b.webp" :: ["c.png"])
               {| processedCount := 0; skippedCount := 0 |})
     = result (forEachFile failingWorld initialConfig ["c.png"]
                 {| processedCount := 0; skippedCount := 0 |}).
Proof.
  split; [|split].
  - apply (proj1 (codec_failure_contained failingWorld initialConfig)).
    vm_compute. apply Exists_cons_tl, Exists_cons_hd. reflexivity.
  - apply (proj1 (proj2 (codec_failure_contained failingWorld initialConfig))
             ["a.png"] "b.webp" ["c.png"]
             {| processedCount := 0; skippedCount := 0 |}).
    + vm_compute. reflexivity.
    + vm_compute. apply Exists_cons_tl, Exists_cons_hd. reflexivity.
  - apply (proj1 (proj2 (codec_failure_contained failingWorld initialConfig))
             ["a.png"] "b.webp" ["c.png"]
             {| processedCount := 0; skippedCount := 0 |}
             {| processedCount := 0; skippedCount := 0 |}).
    + vm_compute. reflexivity.
    + vm_compute. apply Exists_cons_tl, Exists_cons_hd. reflexivity.
Defined.

(** * Further properties of the code *)

(** ** Quality estimator: order and range *)

Lemma Math_round_le (v : Q) (n : Z) :
  (v + (1 # 2) < inject_Z (n + 1))%Q -> Math_round v <= n.
Proof.
  intros H. unfold Math_round.
  pose proof (Qfloor_le (v + (1 # 2))) as Hf.
  assert (Hlt : (inject_Z (Qfloor (v + (1 # 2))) < inject_Z (n + 1))%Q)
    by (eapply Qle_lt_trans; eassumption).
  rewrite <- Zlt_Qlt in Hlt. lia.
Qed.

Lemma Math_round_ge (v : Q) (n : Z) :
  (inject_Z n <= v + (1 # 2))%Q -> n <= Math_round v.
Proof.
  intros H. unfold Math_round.
  rewrite <- (Qfloor_Z n). now apply Qfloor_resp_le.
Qed.

Lemma Math_round_mono (v w : Q) :
  (v <= w)%Q -> Math_round v <= Math_round w.
Proof. intros H. unfold Math_round. apply Qfloor_resp_le. lra. Qed.

(** Each segment of the estimator and the values it can give. *)
Lemma estimateQuality_segments (r : Q) :
  ((0.8 <= r)%Q
   /\ estimateQuality r = Math_round (85 + (r - 0.8) * 50)
   /\ 85 <= estimateQuality r)
  \/ ((0.5 <= r)%Q /\ (r < 0.8)%Q
      /\ estimateQuality r = Math_round (70 + (r - 0.5) * 50)
      /\ 70 <= estimateQuality r <= 85)
  \/ ((0.3 <= r)%Q /\ (r < 0.5)%Q
      /\ estimateQuality r = Math_round (50 + (r - 0.3) * 100)
      /\ 50 <= estimateQuality r <= 70)
  \/ ((r < 0.3)%Q
      /\ estimateQuality r = Math_round (30 + r * 66.7)
      /\ estimateQuality r <= 50).
Proof.
  unfold estimateQuality.
  destruct (Qle_bool 0.8 r) eqn:H1.
  { apply Qle_bool_iff in H1. left. repeat split; [exact H1|].
    apply Math_round_ge. change (inject_Z 85) with 85%Q. lra. }
  apply Qle_bool_false in H1.
  destruct (Qle_bool 0.5 r) eqn:H2.
  { apply Qle_bool_iff in H2. right; left. repeat split; try assumption.
    - apply Math_round_ge. change (inject_Z 70) with 70%Q. lra.
    - apply Math_round_le. change (inject_Z (85 + 1)) with 86%Q. lra. }
  apply Qle_bool_false in H2.
  destruct (Qle_bool 0.3 r) eqn:H3.
  { apply Qle_bool_iff in H3. right; right; left.
    repeat split; try assumption.
    - apply Math_round_ge. change (inject_Z 50) with 50%Q. lra.
    - apply Math_round_le. change (inject_Z (70 + 1)) with 71%Q. lra. }
  apply Qle_bool_false in H3.
  right; right; right. repeat split; try assumption.
  apply Math_round_le. change (inject_Z (50 + 1)) with 51%Q. lra.
Qed.

Lemma estimateQuality_mono (r1 r2 : Q) :
  (r1 <= r2)%Q -> estimateQuality r1 <= estimateQuality r2.
Proof.
  intros H.
  destruct (estimateQuality_segments r1)
    as [(A1 & E1 & B1) | [(A1 & A1' & E1 & B1) | [(A1 & A1' & E1 & B1)
                                                 | (A1 & E1 & B1)]]];
    destruct (estimateQuality_segments r2)
      as [(A2 & E2 & B2) | [(A2 & A2' & E2 & B2) | [(A2 & A2' & E2 & B2)
                                                   | (A2 & E2 & B2)]]];
    try lia; try (exfalso; lra);
    rewrite E1, E2; apply Math_round_mono; lra.
Qed.

Lemma clampQuality_mono (n m : Z) :
  n <= m -> clampQuality n <= clampQuality m.
Proof. unfold clampQuality. lia. Qed.

Lemma sizeRatioOf_antitone (sz1 sz2 : Z) :
  0 < sz1 <= sz2 -> (sizeRatioOf sz2 <= sizeRatioOf sz1)%Q.
Proof.
  intros [H1 H2]. unfold sizeRatioOf.
  assert (Hq1 : (0 < inject_Z sz1)%Q)
    by (change 0%Q with (inject_Z 0); rewrite <- Zlt_Qlt; lia).
  assert (Hq2 : (0 < inject_Z sz2)%Q)
    by (change 0%Q with (inject_Z 0); rewrite <- Zlt_Qlt; lia).
  assert (Hle : (inject_Z sz1 <= inject_Z sz2)%Q) by now rewrite <- Zle_Qle.
  apply Qle_shift_div_l; [exact Hq1|].
  assert (E : (inject_Z TARGET_SIZE / inject_Z sz2 * inject_Z sz1
               == inject_Z TARGET_SIZE * (inject_Z sz1 / inject_Z sz2))%Q)
    by (field; lra).
  rewrite E.
  assert (H1le : (inject_Z sz1 / inject_Z sz2 <= 1)%Q)
    by (apply Qle_shift_div_r; [exact Hq2 | lra]).
  assert (H0le : (0 <= inject_Z sz1 / inject_Z sz2)%Q)
    by (apply Qle_shift_div_l; [exact Hq2 | lra]).
  assert (Ht : (0 <= inject_Z TARGET_SIZE)%Q) by (unfold Qle; simpl; lia).
  nra.
Qed.

(** X1.  The estimator is monotone: a larger size ratio never gives a
    lower estimate or a lower seed; so of two files the larger one never
    starts at a higher quality. *)
Theorem larger_file_never_higher_seed :
  (forall r1 r2 : Q,
      (r1 <= r2)%Q ->
      estimateQuality r1 <= estimateQuality r2
      /\ seedQuality r1 <= seedQuality r2)
  /\ (forall sz1 sz2 : Z,
         0 < sz1 <= sz2 -> firstQuality sz2 <= firstQuality sz1).
Proof.
  assert (Hmono : forall r1 r2 : Q,
             (r1 <= r2)%Q ->
             estimateQuality r1 <= estimateQuality r2
             /\ seedQuality r1 <= seedQuality r2).
  { intros r1 r2 H. pose proof (estimateQuality_mono r1 r2 H).
    split; [assumption|]. unfold seedQuality. now apply clampQuality_mono. }
  split; [exact Hmono|].
  intros sz1 sz2 H. unfold firstQuality.
  apply Hmono. now apply sizeRatioOf_antitone.
Qed.

Lemma larger_file_never_higher_seed_witness :
  firstQuality 500000 <= firstQuality 200000.
Proof.
  apply (proj2 larger_file_never_higher_seed 200000 500000). lia.
Defined.

(** X2.  For a file of positive size the estimate is at least 30, so the
    lower clamp at 10 never acts and the first quality lies between 30 and
    95; a file that is already within the target starts at 95. *)
Theorem first_quality_range (originalSize : Z) :
  0 < originalSize ->
  30 <= estimateQuality (sizeRatioOf originalSize)
  /\ firstQuality originalSize
     = Z.min 95 (estimateQuality (sizeRatioOf originalSize))
  /\ 30 <= firstQuality originalSize <= 95
  /\ (originalSize <= TARGET_SIZE -> firstQuality originalSize = 95).
Proof.
  intros Hpos.
  destruct (sizeRatioOf_positive originalSize Hpos) as [Hr Hmul].
  assert (H30 : 30 <= estimateQuality (sizeRatioOf originalSize)).
  { change 30 with (estimateQuality 0).
    apply estimateQuality_mono. lra. }
  unfold firstQuality, seedQuality, clampQuality.
  repeat split; try lia.
  intros Hle.
  assert (H95 : 95 <= estimateQuality (sizeRatioOf originalSize)).
  { change 95 with (estimateQuality 1).
    apply estimateQuality_mono. unfold sizeRatioOf.
    assert (Hq : (0 < inject_Z originalSize)%Q)
      by (change 0%Q with (inject_Z 0); now rewrite <- Zlt_Qlt).
    apply Qle_shift_div_l; [exact Hq|]. rewrite Qmult_1_l.
    now rewrite <- Zle_Qle. }
  lia.
Qed.

Lemma first_quality_range_witness :
  30 <= estimateQuality (sizeRatioOf 50000)
  /\ firstQuality 50000 = Z.min 95 (estimateQuality (sizeRatioOf 50000))
  /\ 30 <= firstQuality 50000 <= 95
  /\ (50000 <= TARGET_SIZE -> firstQuality 50000 = 95).
Proof. apply (first_quality_range 50000). lia. Defined.

(** ** The outcome of the search *)

Lemma last_cons {A} (a : A) (l : list A) (d : A) :
  last (a :: l) d = last l a.
Proof.
  revert a d. induction l as [|b l IH]; intros a d; [reflexivity|].
  change (last (a :: b :: l) d) with (last (b :: l) d).
  now rewrite !IH.
Qed.

(** The position and the quality of every refinement of a chain. *)
Lemma chain_positions (l : list Attempt) : forall a,
  Sorted refinementOf (a :: l) ->
  Forall (fun b => att_quality b = att_quality a - 10 * (att_n b - att_n a)
                   /\ att_n a < att_n b <= 5) l.
Proof.
  induction l as [|b l IH]; intros a H; constructor.
  - apply chain_tail in H as [_ (_ & _ & Hn & Hq & Hb)]. lia.
  - apply chain_tail in H as [Hs (_ & _ & Hn & Hq & Hb)].
    eapply Forall_impl; [|apply (IH b Hs)].
    cbv beta. intros c [Hc1 Hc2]. lia.
Qed.

Section Outcome.

Variable sys : System.
Variable cfg : Config.

(** When the loop ends normally its condition is false, and its final
    state is what the last encode left. *)
Lemma refineLoop_final (filePath outputFormat : string) (s : LoopState) :
  forall e0 s',
    att_n e0 = attempts s -> att_quality e0 = quality s ->
    att_result e0 = Some (compressedBuffer s) ->
    result (refineLoop sys cfg filePath outputFormat s) = Some s' ->
    loopGuard s' = false
    /\ att_result
         (last (attemptsOf (trace (refineLoop sys cfg filePath outputFormat s)))
            e0) = Some (compressedBuffer s')
    /\ att_quality
         (last (attemptsOf (trace (refineLoop sys cfg filePath outputFormat s)))
            e0) = quality s'
    /\ att_n
         (last (attemptsOf (trace (refineLoop sys cfg filePath outputFormat s)))
            e0) = attempts s'.
Proof.
  pattern s, (refineLoop sys cfg filePath outputFormat s).
  apply refineLoop_ind; clear s.
  - intros s Hg e0 s' Hn Hq Hr Hres. injection Hres as <-. simpl. auto.
  - intros s _ _ e0 s' _ _ _ Hres. discriminate Hres.
  - intros s inst call _ _ _ _ e0 s' _ _ _ Hres. discriminate Hres.
  - intros s inst call b s0 m _ _ _ _ -> IH e0 s' _ _ _ Hres.
    cbn [trace result fst snd attemptsOf] in *.
    rewrite last_cons. apply IH; auto.
Qed.

Lemma compressWithRatio_try_split (filePath : string) (originalSize : Z) :
  compressWithRatio_try sys cfg filePath originalSize =
  (s <- searchOf sys cfg filePath originalSize ;;
   finishCompression sys cfg filePath (needsResize cfg) s).
Proof.
  rewrite compressWithRatio_try_eq. unfold searchOf.
  destruct (getImageDimensions sys filePath) as [t [d|]]; [|reflexivity].
  pose proof (planResizeAgain_trace sys cfg (sharp (FromPath filePath)))
    as Ht.
  destruct (planResizeAgain sys cfg (sharp (FromPath filePath)))
    as [t' [i|]]; simpl in Ht; subst t'; [|reflexivity].
  cbv zeta. unfold encode. cbn [bind app log emit].
  destruct (toBuffer sys 0 _) as [b|]; [|reflexivity].
  cbn [bind app].
  destruct (refineLoop sys cfg filePath (outputFormatOf cfg) _)
    as [tl [s|]]; [|reflexivity].
  cbn [bind app].
  destruct (finishCompression sys cfg filePath (needsResize cfg) s).
  f_equal. rewrite <- !app_assoc. reflexivity.
Qed.

Lemma searchOf_events (filePath : string) (originalSize : Z) :
  Forall searchEvent (trace (searchOf sys cfg filePath originalSize)).
Proof.
  unfold searchOf. rewrite trace_bind. apply Forall_app. split.
  { unfold getImageDimensions. destruct (metadata sys _); simpl;
      repeat constructor. }
  destruct (result (getImageDimensions sys filePath)); [|constructor].
  rewrite trace_log_bind. cbv zeta. rewrite trace_log_bind.
  constructor; [exact I|]. constructor; [exact I|].
  rewrite trace_bind, planResizeAgain_trace. cbn [app].
  destruct (result (planResizeAgain sys cfg _)) as [inst|]; [|constructor].
  rewrite trace_bind. apply Forall_app.
  split; [repeat constructor|].
  unfold encode at 1. cbn [result snd].
  destruct (toBuffer sys 0 _) as [b|]; [|constructor].
  match goal with
  | |- Forall _ (trace (refineLoop _ _ _ _ ?s0)) => generalize s0
  end.
  intros s. pattern s, (refineLoop sys cfg filePath (outputFormatOf cfg) s).
  apply refineLoop_ind; clear s; simpl; repeat constructor; auto.
Qed.

Lemma searchEvent_fileOps (t : list Event) :
  Forall searchEvent t -> fileOps t = [].
Proof.
  induction 1 as [|e t He _ IH]; [reflexivity|].
  unfold fileOps in *. simpl. rewrite IH.
  destruct e as [[] | | | |]; simpl in *; tauto.
Qed.

Lemma searchEvent_warningsOf (t : list Event) :
  Forall searchEvent t -> warningsOf t = [].
Proof.
  induction 1 as [|e t He _ IH]; [reflexivity|].
  destruct e as [[] | | | |]; simpl in *; tauto.
Qed.

Lemma warningsOf_app (t1 t2 : list Event) :
  warningsOf (t1 ++ t2) = warningsOf t1 ++ warningsOf t2.
Proof.
  induction t1 as [|e t1 IH]; simpl; [reflexivity|].
  destruct e as [[] | | | |]; simpl; now rewrite IH.
Qed.

Lemma fileOps_app (t1 t2 : list Event) :
  fileOps (t1 ++ t2) = fileOps t1 ++ fileOps t2.
Proof. apply filter_app. Qed.

(** The trace of one [compressWithRatio], cut at the end of the search. *)
Lemma compressWithRatio_trace (filePath : string) (originalSize : Z) :
  trace (compressWithRatio sys cfg filePath originalSize) =
  ev_compress filePath originalSize
  :: trace (searchOf sys cfg filePath originalSize)
  ++ match result (searchOf sys cfg filePath originalSize) with
     | Some s =>
         trace (finishCompression sys cfg filePath (needsResize cfg) s)
         ++ match result (finishCompression sys cfg filePath
                            (needsResize cfg) s) with
            | Some _ => []
            | None => [ev_console (msg_compress_error filePath)]
            end
     | None => [ev_console (msg_compress_error filePath)]
     end.
Proof.
  unfold compressWithRatio. rewrite trace_bind. simpl. f_equal.
  rewrite trace_try_catch, compressWithRatio_try_split.
  rewrite trace_bind, result_bind, <- app_assoc. f_equal.
  destruct (result (searchOf sys cfg filePath originalSize)); reflexivity.
Qed.

Lemma compressWithRatio_attempts_search (filePath : string)
    (originalSize : Z) :
  attemptsOf (trace (compressWithRatio sys cfg filePath originalSize)) =
  attemptsOf (trace (searchOf sys cfg filePath originalSize)).
Proof.
  rewrite compressWithRatio_trace. simpl. rewrite attemptsOf_app.
  destruct (result (searchOf sys cfg filePath originalSize)) as [s|];
    [|simpl; now rewrite app_nil_r].
  rewrite attemptsOf_app, finishCompression_attempts.
  destruct (result (finishCompression _ _ _ _ _)); simpl;
    now rewrite app_nil_r.
Qed.

(** When the search ends normally, the loop condition is false on its
    final state, and that state is what the last encode left. *)
Lemma searchOf_final (filePath : string) (originalSize : Z) (s : LoopState) :
  result (searchOf sys cfg filePath originalSize) = Some s ->
  loopGuard s = false
  /\ exists l a,
      attemptsOf (trace (compressWithRatio sys cfg filePath originalSize))
      = l ++ [a]
      /\ att_result a = Some (compressedBuffer s)
      /\ att_quality a = quality s
      /\ att_n a = attempts s.
Proof.
  rewrite compressWithRatio_attempts. unfold searchOf.
  destruct (getImageDimensions_attempts sys filePath) as [_ [d Hd]].
  rewrite result_bind, Hd, result_log_bind. cbv zeta.
  rewrite result_log_bind, result_bind.
  destruct (result (planResizeAgain sys cfg (sharp (FromPath filePath))))
    as [inst|]; [|discriminate].
  rewrite result_bind. unfold encode at 1. cbn [result snd].
  destruct (toBuffer sys 0 _) as [b|] eqn:Hb; [|discriminate].
  intros Hres.
  set (e0 := {| att_n := 0; att_quality := firstQuality originalSize;
                att_call := {| instance := inst;
                               encoder := encoderFor (outputFormatOf cfg);
                               options := optionsAt (outputFormatOf cfg)
                                            (firstQuality originalSize) |};
                att_result := Some b |}).
  destruct (refineLoop_final filePath (outputFormatOf cfg)
              {| compressedBuffer := b; quality := firstQuality originalSize;
                 attempts := 0;
                 formatOpts := optionsAt (outputFormatOf cfg)
                                 (firstQuality originalSize) |}
              e0 s eq_refl eq_refl eq_refl Hres) as (Hg & H1 & H2 & H3).
  split; [exact Hg|].
  set (la := attemptsOf (trace (refineLoop sys cfg filePath
                                  (outputFormatOf cfg) _))) in *.
  exists (removelast (e0 :: la)), (last la e0).
  split; [|auto].
  rewrite <- last_cons with (d := e0).
  apply app_removelast_last. discriminate.
Qed.

(** [finishCompression], case by case. *)
Lemma finishCompression_eq (filePath : string) (w : bool) (s : LoopState) :
  finishCompression sys cfg filePath w s =
  let b := compressedBuffer s in
  let np := newFilePathOf cfg filePath in
  let warn := if TARGET_SIZE <? buf_length b
              then [ev_console (msg_warning (quality s))] else [] in
  let said :=
    warn ++ (if w
             then match metadata sys (FromBuffer b) with
                  | Some d =>
                      [ev_console (msg_new_dimensions (fst d) (snd d))]
                  | None => []
                  end
             else []) in
  if w && match metadata sys (FromBuffer b) with
          | Some _ => false
          | None => true
          end
  then (warn, None)
  else if negb (writeFileSync sys np b)
  then (said ++ [ev_write np b], None)
  else if (filePath =? np)%string
  then (said ++ [ev_write np b], Some (buf_length b))
  else if unlinkSync sys filePath
  then (said ++ [ev_write np b; ev_unlink filePath], Some (buf_length b))
  else (said ++ [ev_write np b; ev_unlink filePath], None).
Proof.
  unfold finishCompression. cbv zeta.
  destruct (TARGET_SIZE <? buf_length (compressedBuffer s));
    destruct w; cbn [andb];
    try destruct (metadata sys (FromBuffer (compressedBuffer s)));
    try reflexivity;
    cbn [bind log emit ret app];
    destruct (writeFileSync sys _ _); try reflexivity;
    cbn [bind log emit ret app negb];
    destruct (filePath =? newFilePathOf cfg filePath)%string;
    try reflexivity;
    cbn [bind log emit ret app negb];
    destruct (unlinkSync sys filePath); reflexivity.
Qed.

End Outcome.

Section OutcomeTheorems.

Variable sys : System.
Variable cfg : Config.

(** What [finishCompression] prints before it writes has no write, no
    removal, and no warning other than the one of line 231. *)
Lemma finishCompression_said (w : bool) (s : LoopState) :
  let said :=
    (if TARGET_SIZE <? buf_length (compressedBuffer s)
     then [ev_console (msg_warning (quality s))] else [])
    ++ (if w
        then match metadata sys (FromBuffer (compressedBuffer s)) with
             | Some d => [ev_console (msg_new_dimensions (fst d) (snd d))]
             | None => []
             end
        else []) in
  fileOps said = []
  /\ warningsOf said
     = (if TARGET_SIZE <? buf_length (compressedBuffer s)
        then [quality s] else []).
Proof.
  cbv zeta.
  destruct (TARGET_SIZE <? _); destruct w;
    try destruct (metadata sys _); split; reflexivity.
Qed.

Lemma finishCompression_success (filePath : string) (w : bool)
    (s : LoopState) (n : Z) :
  result (finishCompression sys cfg filePath w s) = Some n ->
  n = buf_length (compressedBuffer s)
  /\ writeFileSync sys (newFilePathOf cfg filePath) (compressedBuffer s)
     = true
  /\ warningsOf (trace (finishCompression sys cfg filePath w s))
     = (if TARGET_SIZE <? n then [quality s] else [])
  /\ fileOps (trace (finishCompression sys cfg filePath w s))
     = ev_write (newFilePathOf cfg filePath) (compressedBuffer s)
       :: (if (filePath =? newFilePathOf cfg filePath)%string then []
           else [ev_unlink filePath]).
Proof.
  rewrite finishCompression_eq. cbv zeta.
  destruct (finishCompression_said w s) as [Hf Hw]. cbv zeta in Hf, Hw.
  destruct (w && _); [discriminate|].
  destruct (writeFileSync sys _ _); [|discriminate]. cbn [negb].
  destruct (filePath =? newFilePathOf cfg filePath)%string.
  - intros H. injection H as <-. cbn [trace fst].
    rewrite warningsOf_app, fileOps_app, Hf, Hw, app_nil_r. auto.
  - destruct (unlinkSync sys filePath); [|discriminate].
    intros H. injection H as <-. cbn [trace fst].
    rewrite warningsOf_app, fileOps_app, Hf, Hw, app_nil_r. auto.
Qed.

(** The writes and removals of [finishCompression]: none, one write, or
    one write followed by the removal of the source. *)
Lemma finishCompression_fileOps (filePath : string) (w : bool)
    (s : LoopState) :
  let np := newFilePathOf cfg filePath in
  let b := compressedBuffer s in
  let ops := fileOps (trace (finishCompression sys cfg filePath w s)) in
  ops = []
  \/ ops = [ev_write np b]
  \/ (ops = [ev_write np b; ev_unlink filePath]
      /\ writeFileSync sys np b = true /\ np <> filePath).
Proof.
  cbv zeta. rewrite finishCompression_eq. cbv zeta.
  destruct (finishCompression_said w s) as [Hf _]. cbv zeta in Hf.
  assert (Hw : fileOps
                 (if TARGET_SIZE <? buf_length (compressedBuffer s)
                  then [ev_console (msg_warning (quality s))] else []) = [])
    by (destruct (TARGET_SIZE <? _); reflexivity).
  destruct (w && _); cbn [trace fst]; [left; exact Hw|].
  destruct (writeFileSync sys _ _) eqn:Hwr; cbn [negb trace fst].
  - destruct (filePath =? newFilePathOf cfg filePath)%string eqn:He;
      cbn [trace fst].
    + right; left. now rewrite fileOps_app, Hf.
    + right; right. apply String.eqb_neq in He.
      destruct (unlinkSync sys filePath); cbn [trace fst];
        rewrite fileOps_app, Hf; auto.
  - right; left. now rewrite fileOps_app, Hf.
Qed.

(** X3.  During the search of one file, the quality of an encode is the
    seed minus ten times its position, and the position is at most 5; so
    no quality is more than 50 below the seed, and a quality below 10
    occurs only for a seed below 60 that is not a multiple of ten. *)
Theorem quality_by_position (filePath : string) (originalSize : Z) :
  Forall
    (fun a =>
       att_quality a = firstQuality originalSize - 10 * att_n a
       /\ 0 <= att_n a <= 5
       /\ (att_quality a < 10 ->
           firstQuality originalSize < 60
           /\ firstQuality originalSize mod 10 <> 0))
    (attemptsOf (trace (compressWithRatio sys cfg filePath originalSize))).
Proof.
  destruct (compressWithRatio_chain sys cfg filePath originalSize)
    as [Hc Hhd].
  pose proof (compressWithRatio_qualities sys cfg filePath originalSize)
    as Hq.
  pose proof (firstQuality_range originalSize) as Hr.
  destruct (attemptsOf _) as [|a l]; [constructor|].
  destruct Hhd as [Hn Hq0].
  pose proof (chain_positions l a Hc) as Hp.
  assert (Hall : Forall
            (fun b => att_quality b = firstQuality originalSize - 10 * att_n b
                      /\ 0 <= att_n b <= 5) (a :: l)).
  { constructor; [lia|].
    eapply Forall_impl; [|exact Hp]. cbv beta. intros b [H1 H2]. lia. }
  rewrite Forall_forall in *. intros b Hin.
  destruct (Hall b Hin) as [H1 H2]. specialize (Hq b Hin).
  split; [exact H1|]. split; [exact H2|].
  intros Hlt. split; [lia|]. intros Hmod.
  apply Z.mod_divide in Hmod; [|lia].
  destruct Hmod as [k Hk]. lia.
Qed.

End OutcomeTheorems.

Lemma quality_by_position_witness :
  firstQuality 10240000 < 60 /\ firstQuality 10240000 mod 10 <> 0.
Proof.
  pose proof (quality_by_position stubbornWorld initialConfig "a.png"
                10240000) as H.
  rewrite Forall_forall in H.
  apply (H (nth 3 (attemptsOf (trace (compressWithRatio stubbornWorld
                                        initialConfig "a.png" 10240000)))
              {| att_n := 0; att_quality := 0;
                 att_call := {| instance := sharp (FromPath "");
                                encoder := png; options := quality_opt 0 |};
                 att_result := None |})).
  - vm_compute. auto 6.
  - vm_compute. reflexivity.
Defined.

(** The position and the quality of every attempt of a file. *)
Lemma quality_positions_aux (sys : System) (cfg : Config)
    (filePath : string) (originalSize : Z) :
  Forall (fun a => att_quality a = firstQuality originalSize - 10 * att_n a
                   /\ 0 <= att_n a <= 5)
    (attemptsOf (trace (compressWithRatio sys cfg filePath originalSize))).
Proof.
  destruct (compressWithRatio_chain sys cfg filePath originalSize)
    as [Hc Hhd].
  destruct (attemptsOf _) as [|a l]; [constructor|].
  destruct Hhd as [Hn Hq]. constructor; [lia|].
  eapply Forall_impl; [|apply (chain_positions l a Hc)].
  cbv beta. intros b [H1 H2]. lia.
Qed.

Section ReturnTheorems.

Variable sys : System.
Variable cfg : Config.

(** The position of the last attempt of a file is at most 5. *)
Lemma last_attempt_position (filePath : string) (originalSize : Z)
    (l : list Attempt) (a : Attempt) :
  attemptsOf (trace (compressWithRatio sys cfg filePath originalSize))
  = l ++ [a] ->
  att_n a <= 5.
Proof.
  intros Hl.
  pose proof (quality_positions_aux sys cfg filePath originalSize) as H.
  rewrite Forall_forall in H. apply (H a). rewrite Hl.
  apply in_or_app. right. now left.
Qed.

(** The normal end of the [try] block. *)
Lemma compressWithRatio_normal (filePath : string) (originalSize newSize : Z) :
  result (compressWithRatio_try sys cfg filePath originalSize)
  = Some newSize ->
  result (compressWithRatio sys cfg filePath originalSize) = Some newSize
  /\ exists l a b,
      attemptsOf (trace (compressWithRatio sys cfg filePath originalSize))
      = l ++ [a]
      /\ att_result a = Some b
      /\ buf_length b = newSize
      /\ (newSize <= TARGET_SIZE \/ att_quality a <= 10 \/ att_n a = 5)
      /\ warningsOf (trace (compressWithRatio sys cfg filePath originalSize))
         = (if TARGET_SIZE <? newSize then [att_quality a] else [])
      /\ fileOps (trace (compressWithRatio sys cfg filePath originalSize))
         = ev_write (newFilePathOf cfg filePath) b
           :: (if (filePath =? newFilePathOf cfg filePath)%string then []
               else [ev_unlink filePath])
      /\ writeFileSync sys (newFilePathOf cfg filePath) b = true.
Proof.
  intros Hres. split; [now rewrite compressWithRatio_result, Hres|].
  pose proof (compressWithRatio_trace sys cfg filePath originalSize) as Ht.
  rewrite compressWithRatio_try_split, result_bind in Hres.
  destruct (result (searchOf sys cfg filePath originalSize)) as [s|] eqn:Hs;
    [|discriminate].
  destruct (searchOf_final sys cfg filePath originalSize s Hs)
    as (Hg & l & a & Hl & Hr & Hq & Hn).
  destruct (finishCompression_success sys cfg _ _ _ _ Hres)
    as (-> & Hw & Hfw & Hff).
  rewrite Hres, app_nil_r in Ht.
  pose proof (searchOf_events sys cfg filePath originalSize) as Hev.
  exists l, a, (compressedBuffer s).
  split; [exact Hl|]. split; [exact Hr|]. split; [reflexivity|].
  split; [|split; [|split; [|exact Hw]]].
  - pose proof (last_attempt_position filePath originalSize l a Hl) as H5.
    unfold loopGuard in Hg. rewrite Hq, Hn.
    destruct (TARGET_SIZE <? buf_length (compressedBuffer s)) eqn:E1;
      [|apply Z.ltb_ge in E1; auto].
    destruct (10 <? quality s) eqn:E2;
      [|apply Z.ltb_ge in E2; auto].
    destruct (attempts s <? 5) eqn:E3; [discriminate Hg|].
    apply Z.ltb_ge in E3. right; right. lia.
  - rewrite Ht. cbn [warningsOf]. rewrite warningsOf_app.
    rewrite (searchEvent_warningsOf _ Hev), Hfw, Hq. reflexivity.
  - rewrite Ht.
    change (fileOps (ev_compress filePath originalSize :: ?t))
      with (fileOps t).
    rewrite fileOps_app, (searchEvent_fileOps _ Hev), Hff. reflexivity.
Qed.

(** X4.  When the [try] block of [compressWithRatio] ends normally, the
    size it returns is the length of the buffer of the last encode; that
    buffer was written to the new path, with success; the last encode met
    the target, or ran at a quality of 10 or less, or was the fifth
    refinement; and the over-target warning is printed exactly when the
    returned size exceeds the target. *)
Theorem normal_return (filePath : string) (originalSize newSize : Z) :
  result (compressWithRatio_try sys cfg filePath originalSize)
  = Some newSize ->
  result (compressWithRatio sys cfg filePath originalSize) = Some newSize
  /\ exists l a b,
      attemptsOf (trace (compressWithRatio sys cfg filePath originalSize))
      = l ++ [a]
      /\ att_result a = Some b
      /\ buf_length b = newSize
      /\ (newSize <= TARGET_SIZE \/ att_quality a <= 10 \/ att_n a = 5)
      /\ warningsOf (trace (compressWithRatio sys cfg filePath originalSize))
         = (if TARGET_SIZE <? newSize then [att_quality a] else [])
      /\ fileOps (trace (compressWithRatio sys cfg filePath originalSize))
         = ev_write (newFilePathOf cfg filePath) b
           :: (if (filePath =? newFilePathOf cfg filePath)%string then []
               else [ev_unlink filePath])
      /\ writeFileSync sys (newFilePathOf cfg filePath) b = true.
Proof. apply compressWithRatio_normal. Qed.

(** A failed encode ends the search with an exception. *)
Lemma searchOf_failure (filePath : string) (originalSize : Z) :
  Exists (fun a => att_result a = None)
    (attemptsOf (trace (compressWithRatio sys cfg filePath originalSize))) ->
  result (searchOf sys cfg filePath originalSize) = None.
Proof.
  rewrite compressWithRatio_attempts. unfold searchOf.
  destruct (getImageDimensions_attempts sys filePath) as [_ [d Hd]].
  rewrite result_bind, Hd, result_log_bind. cbv zeta.
  rewrite result_log_bind, result_bind.
  destruct (result (planResizeAgain sys cfg (sharp (FromPath filePath))))
    as [inst|]; [|reflexivity].
  rewrite result_bind. unfold encode at 1. cbn [result snd].
  destruct (toBuffer sys 0 _) as [b|] eqn:Hb; [|reflexivity].
  intros H. inversion H as [? ? Hd0 | ? ? Hl]; subst.
  - simpl in Hd0. congruence.
  - now apply refineLoop_failure.
Qed.

Lemma compressWithRatio_fileOps (filePath : string) (originalSize : Z) :
  fileOps (trace (compressWithRatio sys cfg filePath originalSize)) =
  match result (searchOf sys cfg filePath originalSize) with
  | Some s =>
      fileOps (trace (finishCompression sys cfg filePath (needsResize cfg) s))
  | None => []
  end.
Proof.
  rewrite compressWithRatio_trace.
  change (fileOps (ev_compress filePath originalSize :: ?t))
    with (fileOps t).
  rewrite fileOps_app,
    (searchEvent_fileOps _ (searchOf_events sys cfg filePath originalSize)).
  destruct (result (searchOf sys cfg filePath originalSize)) as [s|];
    [|reflexivity].
  rewrite fileOps_app.
  destruct (result (finishCompression _ _ _ _ _)); cbn [app];
    now rewrite app_nil_r.
Qed.

(** The writes and removals of one call: none, one write, or one write
    followed by the removal of the source. *)
Lemma compressWithRatio_fileOps_shape (filePath : string)
    (originalSize : Z) :
  let ops :=
    fileOps (trace (compressWithRatio sys cfg filePath originalSize)) in
  let np := newFilePathOf cfg filePath in
  ops = []
  \/ (exists b, ops = [ev_write np b])
  \/ (exists b, ops = [ev_write np b; ev_unlink filePath]
                 /\ writeFileSync sys np b = true /\ np <> filePath).
Proof.
  cbv zeta. rewrite compressWithRatio_fileOps.
  destruct (result (searchOf sys cfg filePath originalSize)) as [s|];
    [|now left].
  destruct (finishCompression_fileOps sys cfg filePath (needsResize cfg) s)
    as [H | [H | H]]; eauto.
Qed.

(** X5.  One call of [compressWithRatio] writes at most once, to the new
    path, and removes the source only after that write has succeeded and
    only when the new path differs from the source; when an encode fails
    it neither writes nor removes anything. *)
Theorem file_operations_of_one_file (filePath : string) (originalSize : Z) :
  let ops :=
    fileOps (trace (compressWithRatio sys cfg filePath originalSize)) in
  let np := newFilePathOf cfg filePath in
  (ops = []
   \/ (exists b, ops = [ev_write np b])
   \/ (exists b, ops = [ev_write np b; ev_unlink filePath]
                 /\ writeFileSync sys np b = true /\ np <> filePath))
  /\ (Exists (fun a => att_result a = None)
        (attemptsOf (trace (compressWithRatio sys cfg filePath originalSize)))
      -> ops = []).
Proof.
  cbv zeta. split.
  - apply compressWithRatio_fileOps_shape.
  - intros H. now rewrite compressWithRatio_fileOps, (searchOf_failure _ _ H).
Qed.

End ReturnTheorems.

Lemma normal_return_witness :
  result (compressWithRatio smallWorld initialConfig "a.png" 50000)
  = Some 40000
  /\ exists l a b,
      attemptsOf (trace (compressWithRatio smallWorld initialConfig "a.png"
                           50000)) = l ++ [a]
      /\ att_result a = Some b
      /\ buf_length b = 40000
      /\ (40000 <= TARGET_SIZE \/ att_quality a <= 10 \/ att_n a = 5)
      /\ warningsOf (trace (compressWithRatio smallWorld initialConfig
                              "a.png" 50000))
         = (if TARGET_SIZE <? 40000 then [att_quality a] else [])
      /\ fileOps (trace (compressWithRatio smallWorld initialConfig "a.png"
                           50000))
         = ev_write (newFilePathOf initialConfig "a.png") b
           :: (if ("a.png" =? newFilePathOf initialConfig "a.png")%string
               then [] else [ev_unlink "a.png"])
      /\ writeFileSync smallWorld (newFilePathOf initialConfig "a.png") b
         = true.
Proof.
  apply (normal_return smallWorld initialConfig "a.png" 50000 40000).
  vm_compute. reflexivity.
Defined.

Lemma file_operations_of_one_file_witness :
  fileOps (trace (compressWithRatio failingWorld initialConfig "a.png"
                    500000)) = [].
Proof.
  apply (proj2 (file_operations_of_one_file failingWorld initialConfig
                  "a.png" 500000)).
  vm_compute. apply Exists_cons_tl, Exists_cons_hd. reflexivity.
Defined.

(** ** The whole run: files touched and files counted *)

Section RunTheorems.

Variable sys : System.
Variable cfg : Config.

Lemma getFileSize_fileOps (file : string) :
  fileOps (trace (getFileSize sys file)) = [].
Proof. rewrite getFileSize_eq. destruct (statSync sys file); reflexivity. Qed.

Lemma processFile_fileOps (file : string) (c : Counts) :
  fileOps (trace (processFile sys cfg file c)) =
  if skips cfg file (readSize sys file) then []
  else fileOps (trace (compressWithRatio sys cfg file (readSize sys file))).
Proof.
  destruct (processFile_cases sys cfg file c)
    as [(_ & -> & ->) | [(_ & -> & ->) | (_ & -> & n & _ & ->)]];
    cbn [trace fst]; rewrite fileOps_app, getFileSize_fileOps; cbn [app];
    [reflexivity | reflexivity |].
  change (fileOps (ev_console ?m :: ?t)) with (fileOps t).
  rewrite fileOps_app. cbn [app]. now rewrite app_nil_r.
Qed.

Lemma newFilePathOf_differs (file : string) :
  newFilePathOf cfg file <> file -> truthy_str (targetFormat cfg) = true.
Proof.
  unfold newFilePathOf. destruct (targetFormat cfg) as [f|]; [|congruence].
  destruct (truthy_str (Some f)); congruence.
Qed.

(** X6.  Every write and every removal of a run concerns an entry of the
    directory that passed the extension filter and has a size other than
    0: a write goes to the new path of such an entry, and a removal takes
    such an entry away, which happens only when a target format is set
    and the new path differs from the entry. *)
Theorem run_touches_image_files_only (e : Event) :
  In e (fileOps (trace (compressImages sys cfg))) ->
  exists files f,
    readdirSync sys "." = Some files
    /\ In f files /\ isImageFile f = true /\ 0 < readSize sys f
    /\ ((exists b, e = ev_write (newFilePathOf cfg f) b)
        \/ (e = ev_unlink f /\ newFilePathOf cfg f <> f
            /\ truthy_str (targetFormat cfg) = true)).
Proof.
  rewrite (compressImages_read sys cfg fileOps
             (fun f => if skips cfg f (readSize sys f) then []
                       else fileOps (trace (compressWithRatio sys cfg f
                                              (readSize sys f)))));
    auto using fileOps_app, processFile_fileOps.
  destruct (readdirSync sys ".") as [files|] eqn:Hd; [|contradiction].
  intros Hin. apply in_flat_map in Hin as [f [Hf He]].
  apply filter_In in Hf as [Hf Himg].
  destruct (skips cfg f (readSize sys f)) eqn:Hs; [contradiction|].
  exists files, f. split; [reflexivity|].
  split; [exact Hf|]. split; [exact Himg|].
  split.
  { unfold skips in Hs. apply orb_false_elim in Hs as [Hz _].
    apply Z.eqb_neq in Hz. pose proof (readSize_nonneg sys f). lia. }
  destruct (compressWithRatio_fileOps_shape sys cfg f (readSize sys f))
    as [H | [[b H] | [b H]]].
  - rewrite H in He. contradiction.
  - rewrite H in He. destruct He as [<- | []]. left. eauto.
  - destruct H as (H & _ & Hne). rewrite H in He.
    destruct He as [<- | [<- | []]]; [left; eauto | right].
    split; [reflexivity|]. split; [exact Hne|].
    now apply (newFilePathOf_differs f).
Qed.

End RunTheorems.

Lemma run_touches_image_files_only_witness :
  exists files f,
    readdirSync smallWorld "." = Some files
    /\ In f files /\ isImageFile f = true /\ 0 < readSize smallWorld f
    /\ ((exists b,
            ev_write "a.png" {| buf_length := 40000 |}
            = ev_write (newFilePathOf initialConfig f) b)
        \/ (ev_write "a.png" {| buf_length := 40000 |} = ev_unlink f
            /\ newFilePathOf initialConfig f <> f
            /\ truthy_str (targetFormat initialConfig) = true)).
Proof.
  apply (run_touches_image_files_only smallWorld initialConfig
           (ev_write "a.png" {| buf_length := 40000 |})).
  vm_compute. left. reflexivity.
Defined.

Section CountTheorems.

Variable sys : System.
Variable cfg : Config.

Lemma processFile_counts (file : string) (c : Counts) :
  result (processFile sys cfg file c) =
  Some {| processedCount :=
            processedCount c
            + (if countedProcessed sys cfg file then 1 else 0);
          skippedCount :=
            skippedCount c + (if countedSkipped sys cfg file then 1 else 0) |}.
Proof.
  unfold countedProcessed, countedSkipped.
  destruct (processFile_cases sys cfg file c)
    as [(Hz & Hs & ->) | [(Hz & Hs & ->) | (Hz & Hs & n & Hn & ->)]];
    rewrite Hs; cbn [result snd negb andb].
  - rewrite Hz. simpl. destruct c. simpl. now rewrite !Z.add_0_r.
  - apply Z.eqb_neq in Hz. rewrite Hz. cbn [negb andb].
    now rewrite Z.add_0_r.
  - rewrite Hn, andb_false_r.
    destruct (n <? readSize sys file); cbn [processedCount skippedCount];
      rewrite ?Z.add_0_r; [reflexivity | now destruct c].
Qed.

Lemma forEachFile_counts (imageFiles : list string) : forall c,
  result (forEachFile sys cfg imageFiles c) =
  Some {| processedCount :=
            processedCount c
            + Z.of_nat (List.length
                          (filter (countedProcessed sys cfg) imageFiles));
          skippedCount :=
            skippedCount c
            + Z.of_nat (List.length
                          (filter (countedSkipped sys cfg) imageFiles)) |}.
Proof.
  induction imageFiles as [|f rest IH]; intros c.
  - simpl. destruct c. simpl. now rewrite !Z.add_0_r.
  - cbn [forEachFile]. rewrite result_bind, processFile_counts, IH.
    cbn [processedCount skippedCount filter].
    destruct (countedProcessed sys cfg f), (countedSkipped sys cfg f);
      cbn [List.length]; f_equal; f_equal; lia.
Qed.

Lemma counted_once (l : list string) :
  (List.length (filter (countedProcessed sys cfg) l)
   + List.length (filter (countedSkipped sys cfg) l) <= List.length l)%nat.
Proof.
  induction l as [|f l IH]; [simpl; lia|].
  cbn [filter List.length].
  destruct (countedProcessed sys cfg f) eqn:Hp;
    destruct (countedSkipped sys cfg f) eqn:Hk; cbn [List.length]; try lia.
  unfold countedProcessed in Hp. unfold countedSkipped in Hk.
  apply andb_prop in Hp as [Hp _]. apply andb_prop in Hk as [_ Hk].
  rewrite Hk in Hp. discriminate Hp.
Qed.

(** The last line of a run over a directory with image files. *)
Lemma compressImages_summary (files : list string) :
  readdirSync sys "." = Some files ->
  filter isImageFile files <> [] ->
  exists t,
    trace (compressImages sys cfg)
    = t ++ [ev_console
              (msg_summary
                 (Z.of_nat
                    (List.length (filter (countedProcessed sys cfg)
                                    (filter isImageFile files))))
                 (Z.of_nat
                    (List.length (filter (countedSkipped sys cfg)
                                    (filter isImageFile files)))))].
Proof.
  intros Hd Hne.
  unfold compressImages.
  rewrite trace_try_catch, !trace_log_bind, !result_log_bind.
  rewrite trace_bind, result_bind, Hd.
  cbn [trace result fst snd ret app].
  destruct (List.length (filter isImageFile files) =? 0)%nat eqn:Hlen.
  { apply Nat.eqb_eq, length_zero_iff_nil in Hlen. contradiction. }
  rewrite trace_log_bind, result_log_bind.
  rewrite trace_bind, result_bind, forEachFile_counts.
  rewrite trace_log_bind, result_log_bind.
  cbn [result snd trace fst log emit processedCount skippedCount ret].
  rewrite !Z.add_0_l, app_nil_r.
  exists (ev_console msg_banner :: ev_console msg_scanning
          :: ev_console (resizeInfo cfg)
          :: ev_console (msg_found (List.length (filter isImageFile files)))
          :: trace (forEachFile sys cfg (filter isImageFile files)
                      {| processedCount := 0; skippedCount := 0 |})
          ++ [ev_console msg_complete]).
  cbn [app]. now rewrite <- app_assoc.
Qed.

(** X7.  When the directory holds image files, the run ends by printing
    the summary, whose first number counts the files for which
    [compressWithRatio] returned less than the original size and whose
    second number counts the files of non-zero size that were skipped;
    no file is counted twice, and unreadable or empty files, failed files
    and files that did not get smaller are counted in neither. *)
Theorem summary_counts (files : list string) :
  readdirSync sys "." = Some files ->
  filter isImageFile files <> [] ->
  let imageFiles := filter isImageFile files in
  let p := List.length (filter (countedProcessed sys cfg) imageFiles) in
  let k := List.length (filter (countedSkipped sys cfg) imageFiles) in
  (exists t,
      trace (compressImages sys cfg)
      = t ++ [ev_console (msg_summary (Z.of_nat p) (Z.of_nat k))])
  /\ (p + k <= List.length imageFiles)%nat.
Proof.
  intros Hd Hne. cbv zeta.
  split; [now apply compressImages_summary | apply counted_once].
Qed.

End CountTheorems.

Lemma summary_counts_witness :
  (exists t,
      trace (compressImages smallWorld initialConfig)
      = t ++ [ev_console
                (msg_summary
                   (Z.of_nat
                      (List.length
                         (filter (countedProcessed smallWorld initialConfig)
                            (filter isImageFile ["a.png"]))))
                   (Z.of_nat
                      (List.length
                         (filter (countedSkipped smallWorld initialConfig)
                            (filter isImageFile ["a.png"])))))])
  /\ (List.length (filter (countedProcessed smallWorld initialConfig)
                     (filter isImageFile ["a.png"]))
      + List.length (filter (countedSkipped smallWorld initialConfig)
                       (filter isImageFile ["a.png"]))
      <= List.length (filter isImageFile ["a.png"]))%nat.
Proof.
  apply (summary_counts smallWorld initialConfig ["a.png"]).
  - reflexivity.
  - vm_compute. discriminate.
Defined.

(** X8.  Run from the command line, the program never counts a file as
    skipped: whatever the arguments, the second number of the summary
    is 0. *)
Theorem summary_skipped_is_zero (sys : System) (args : list string)
    (files : list string) :
  readdirSync sys "." = Some files ->
  filter isImageFile files <> [] ->
  exists t p, trace (main sys args) = t ++ [ev_console (msg_summary p 0)].
Proof.
  intros Hd Hne. unfold main.
  destruct (compressImages_summary sys (loadConfig args) files Hd Hne)
    as [t Ht].
  exists t. eexists. rewrite Ht. repeat f_equal.
  assert (Hk : forall l, filter (countedSkipped sys (loadConfig args)) l = []).
  { induction l as [|f l IH]; [reflexivity|]. cbn [filter].
    unfold countedSkipped at 1, skips.
    rewrite needsResize_loadConfig. cbn [negb].
    rewrite andb_false_r, orb_false_r, andb_negb_l. exact IH. }
  now rewrite Hk.
Qed.

Lemma summary_skipped_is_zero_witness :
  exists t p, trace (main smallWorld []) = t ++ [ev_console (msg_summary p 0)].
Proof.
  apply (summary_skipped_is_zero smallWorld [] ["a.png"]).
  - reflexivity.
  - vm_compute. discriminate.
Defined.

(** ** The path of the converted file *)

Lemma append_empty_r (s : string) : (s ++ "")%string = s.
Proof. induction s as [|c s IH]; simpl; [reflexivity | now rewrite IH]. Qed.

Lemma append_length (a b : string) :
  String.length (a ++ b)%string = (String.length a + String.length b)%nat.
Proof. induction a as [|c a IH]; simpl; [reflexivity | now rewrite IH]. Qed.

Lemma substring_stem (a b : string) :
  String.substring 0 (String.length a) (a ++ b)%string = a.
Proof.
  induction a as [|c a IH]; simpl.
  - destruct b; reflexivity.
  - now rewrite IH.
Qed.

Lemma append_cancel (a x y : string) :
  (a ++ x)%string = (a ++ y)%string -> x = y.
Proof.
  induction a as [|c a IH]; simpl; intros H; [exact H|].
  injection H as H. now apply IH.
Qed.

Lemma lastDot_split (s e : string) :
  lastDot s = Some e ->
  exists stem r, s = (stem ++ e)%string /\ e = String "." r.
Proof.
  revert e. induction s as [|c s IH]; intros e H; [discriminate H|].
  cbn [lastDot] in H.
  destruct (lastDot s) as [e'|].
  - injection H as <-. destruct (IH e' eq_refl) as (stem & r & -> & Hr).
    exists (String c stem), r. split; [reflexivity | exact Hr].
  - destruct (Ascii.eqb c ".") eqn:Hc; [|discriminate H].
    apply Ascii.eqb_eq in Hc. subst c. injection H as <-.
    exists EmptyString, s. split; reflexivity.
Qed.

(** The extension is a suffix of the name, and starts with a dot unless
    it is empty. *)
Lemma extname_split (name : string) :
  exists stem,
    name = (stem ++ extname name)%string
    /\ (extname name = EmptyString \/ exists r, extname name = String "." r).
Proof.
  assert (Hgen : forall s,
             exists stem,
               s = (stem ++ match lastDot s with
                            | Some e => e
                            | None => EmptyString
                            end)%string
               /\ (match lastDot s with Some e => e | None => EmptyString end
                   = EmptyString
                   \/ exists r, match lastDot s with
                                | Some e => e
                                | None => EmptyString
                                end = String "." r)).
  { intros s. destruct (lastDot s) as [e|] eqn:He.
    - destruct (lastDot_split s e He) as (stem & r & Hs & Hr).
      exists stem. split; [exact Hs | right; eauto].
    - exists s. split; [now rewrite append_empty_r | now left]. }
  destruct name as [|c r]; [exists EmptyString; split; [reflexivity | now left]|].
  destruct (ascii_dec c ".") as [-> | Hc].
  - cbn [extname].
    destruct (lastDot r) as [e|] eqn:He.
    + destruct (r =? ".")%string.
      * exists (String "." r). split; [now rewrite append_empty_r | now left].
      * destruct (lastDot_split r e He) as (stem & r' & -> & Hr).
        exists (String "." stem). split; [reflexivity | right; eauto].
    + exists (String "." r). split; [now rewrite append_empty_r | now left].
  - assert (E : extname (String c r)
                = match lastDot (String c r) with
                  | Some e => e
                  | None => EmptyString
                  end).
    { destruct c as [[] [] [] [] [] [] [] []]; try reflexivity.
      contradiction Hc. reflexivity. }
    rewrite E. apply Hgen.
Qed.

Lemma isImageFile_extname (file : string) :
  isImageFile file = true -> extname file <> EmptyString.
Proof.
  unfold isImageFile. intros H E. rewrite E in H. discriminate H.
Qed.

(** X9.  With a target format set, the new path of a file that passed the
    extension filter is the file's name with its extension replaced by a
    dot and the target format; it equals the source path exactly when the
    source extension is, letter case included, a dot and the target
    format.  For a name without extension the new path is only a dot and
    the target format. *)
Theorem new_path_replaces_extension (cfg : Config) (file fmt : string) :
  targetFormat cfg = Some fmt ->
  fmt <> EmptyString ->
  (extname file = EmptyString ->
   newFilePathOf cfg file = ("." ++ fmt)%string)
  /\ (isImageFile file = true ->
      exists stem,
        file = (stem ++ extname file)%string
        /\ newFilePathOf cfg file = (stem ++ "." ++ fmt)%string
        /\ (newFilePathOf cfg file = file
            <-> extname file = ("." ++ fmt)%string)).
Proof.
  intros Ht Hf.
  assert (Hn : newFilePathOf cfg file
               = (sliceDropLast file (String.length (extname file))
                  ++ "." ++ fmt)%string).
  { unfold newFilePathOf. rewrite Ht.
    destruct fmt; [contradiction|reflexivity]. }
  split.
  - intros He. rewrite Hn, He. reflexivity.
  - intros Himg. apply isImageFile_extname in Himg.
    destruct (extname_split file) as (stem & Hs & [He | [r He]]);
      [contradiction|].
    exists stem. split; [exact Hs|].
    assert (Hslice : sliceDropLast file (String.length (extname file))
                     = stem).
    { unfold sliceDropLast. rewrite He at 1. cbn [String.length].
      rewrite Hs at 1 3. rewrite append_length, Nat.add_sub.
      apply substring_stem. }
    rewrite Hn, Hslice. split; [reflexivity|]. split.
    + intros H. apply (append_cancel stem). rewrite <- Hs. now symmetry.
    + intros H. rewrite H in Hs. now symmetry.
Qed.

Lemma new_path_replaces_extension_witness :
  (extname "noext" = EmptyString ->
   newFilePathOf (loadConfig ["t=webp"]) "noext" = ("." ++ "webp")%string)
  /\ exists stem,
      "a.b.PNG" = (stem ++ extname "a.b.PNG")%string
      /\ newFilePathOf (loadConfig ["t=webp"]) "a.b.PNG"
         = (stem ++ "." ++ "webp")%string
      /\ (newFilePathOf (loadConfig ["t=webp"]) "a.b.PNG" = "a.b.PNG"
          <-> extname "a.b.PNG" = ("." ++ "webp")%string).
Proof.
  split.
  - apply (proj1 (new_path_replaces_extension (loadConfig ["t=webp"])
                    "noext" "webp" eq_refl ltac:(discriminate))).
  - apply (proj2 (new_path_replaces_extension (loadConfig ["t=webp"])
                    "a.b.PNG" "webp" eq_refl ltac:(discriminate))).
    reflexivity.
Defined.

(** ** The dimensions of the source do not steer the search *)

Lemma refineLoop_withSourceMetadata (m : string -> option (Z * Z))
    (sys : System) (cfg : Config) (filePath outputFormat : string)
    (s : LoopState) :
  refineLoop (withSourceMetadata m sys) cfg filePath outputFormat s
  = refineLoop sys cfg filePath outputFormat s.
Proof.
  pattern s, (refineLoop sys cfg filePath outputFormat s).
  apply refineLoop_ind; clear s.
  - intros s Hg. now apply refineLoop_stop.
  - intros s Hg Hp. rewrite refineLoop_iterate by assumption.
    change (planResizeAgain (withSourceMetadata m sys) cfg)
      with (planResizeAgain sys cfg).
    now rewrite Hp.
  - intros s inst call Hg Hp -> Hb. rewrite refineLoop_iterate by assumption.
    change (planResizeAgain (withSourceMetadata m sys) cfg)
      with (planResizeAgain sys cfg).
    rewrite Hp. cbv zeta.
    change (toBuffer (withSourceMetadata m sys)) with (toBuffer sys).
    now rewrite Hb.
  - intros s inst call b s' r Hg Hp -> Hb -> IH.
    rewrite refineLoop_iterate by assumption.
    change (planResizeAgain (withSourceMetadata m sys) cfg)
      with (planResizeAgain sys cfg).
    rewrite Hp. cbv zeta.
    change (toBuffer (withSourceMetadata m sys)) with (toBuffer sys).
    rewrite Hb, IH. reflexivity.
Qed.

(** X10.  Whether and what [metadata] answers for a source file has no
    effect on the search: the encodes, the writes and removals, and the
    size returned by [compressWithRatio] are the same under any other
    answers. *)
Theorem source_dimensions_irrelevant (m : string -> option (Z * Z))
    (sys : System) (cfg : Config) (filePath : string) (originalSize : Z) :
  attemptsOf (trace (compressWithRatio (withSourceMetadata m sys) cfg
                       filePath originalSize))
  = attemptsOf (trace (compressWithRatio sys cfg filePath originalSize))
  /\ fileOps (trace (compressWithRatio (withSourceMetadata m sys) cfg
                       filePath originalSize))
     = fileOps (trace (compressWithRatio sys cfg filePath originalSize))
  /\ result (compressWithRatio (withSourceMetadata m sys) cfg
               filePath originalSize)
     = result (compressWithRatio sys cfg filePath originalSize).
Proof.
  assert (Hsearch : result (searchOf (withSourceMetadata m sys) cfg filePath
                              originalSize)
                    = result (searchOf sys cfg filePath originalSize)).
  { unfold searchOf.
    destruct (getImageDimensions_attempts (withSourceMetadata m sys) filePath)
      as [_ [d1 H1]].
    destruct (getImageDimensions_attempts sys filePath) as [_ [d2 H2]].
    rewrite !result_bind, H1, H2. cbv beta iota.
    rewrite !result_log_bind. cbv zeta.
    rewrite !result_bind.
    change (planResizeAgain (withSourceMetadata m sys) cfg)
      with (planResizeAgain sys cfg).
    destruct (result (planResizeAgain sys cfg _)) as [inst|]; [|reflexivity].
    rewrite !result_bind.
    change (encode (withSourceMetadata m sys)) with (encode sys).
    destruct (result (encode sys 0 _ _ _ _)); [|reflexivity].
    now rewrite refineLoop_withSourceMetadata. }
  split; [|split].
  - rewrite !compressWithRatio_attempts.
    change (planResizeAgain (withSourceMetadata m sys) cfg)
      with (planResizeAgain sys cfg).
    destruct (result (planResizeAgain sys cfg _)) as [inst|]; [|reflexivity].
    cbv zeta.
    change (toBuffer (withSourceMetadata m sys)) with (toBuffer sys).
    destruct (toBuffer sys 0 _); [|reflexivity].
    now rewrite refineLoop_withSourceMetadata.
  - rewrite !compressWithRatio_fileOps, Hsearch. reflexivity.
  - rewrite !compressWithRatio_result, !compressWithRatio_try_split,
      !result_bind, Hsearch.
    reflexivity.
Qed.

(** ** Every encode of a run is resized *)

Lemma planResizeAgain_planned (sys : System) (cfg : Config) (i inst : Sharp) :
  needsResize cfg = true ->
  result (planResizeAgain sys cfg i) = Some inst ->
  exists o spec,
    resizing inst = Some o
    /\ readResizeOptions o = Some spec
    /\ resizePlanner (requested (targetWidth cfg))
         (requested (targetHeight cfg)) (MAX_DIMENSION cfg) = Some spec.
Proof.
  unfold needsResize, planResizeAgain, resizePlanner, requested, truthy_num,
    resize.
  destruct (targetWidth cfg) as [[|w]|], (targetHeight cfg) as [[|h]|];
    try destruct (w =? 0); try destruct (h =? 0); cbn [negb orb andb];
    destruct (0 <? MAX_DIMENSION cfg); try discriminate;
    intros _; destruct (resizeAccepts sys _); try discriminate;
    intros H; injection H as <-; cbn [resizing];
    eexists; eexists; (split; [reflexivity|]); split; reflexivity.
Qed.

(** X11.  Run from the command line, the program resizes on every
    encode: each encode carries resize options, and they are the ones the
    planner's rules give for the arguments; with none of the three options
    they are the 1920 by 1920 box without enlargement. *)
Theorem every_encode_resized (sys : System) (args : list string) :
  Forall
    (fun a =>
       exists o spec,
         resizing (instance (att_call a)) = Some o
         /\ readResizeOptions o = Some spec
         /\ resizePlanner (requested (targetWidth (loadConfig args)))
              (requested (targetHeight (loadConfig args)))
              (MAX_DIMENSION (loadConfig args)) = Some spec
         /\ (noOptions args = true ->
             spec = {| spec_width := Some 1920; spec_height := Some 1920;
                       fitMode := containNoEnlarge;
                       enlargementAllowed := false |}))
    (attemptsOf (trace (main sys args))).
Proof.
  unfold main.
  rewrite (compressImages_read sys (loadConfig args) attemptsOf
             (fun f => if skips (loadConfig args) f (readSize sys f) then []
                       else attemptsOf
                              (trace (compressWithRatio sys (loadConfig args)
                                        f (readSize sys f)))));
    auto using attemptsOf_app, processFile_attempts.
  destruct (readdirSync sys "."); [|constructor].
  apply Forall_flat_map, Forall_forall. intros f _.
  destruct (skips _ f _); [constructor|].
  eapply Forall_impl; [|apply compressWithRatio_calls].
  intros a [inst [Hp ->]]. cbn [instance att_call].
  destruct (planResizeAgain_planned sys (loadConfig args) _ inst
              (needsResize_loadConfig args) Hp) as (o & spec & Ho & Hr & Hs).
  exists o, spec. repeat (split; [assumption|]).
  intros Hno. rewrite (noOptions_loadConfig args Hno) in Hs.
  vm_compute in Hs. now injection Hs as <-.
Qed.

Lemma every_encode_resized_witness :
  Forall
    (fun a =>
       exists o spec,
         resizing (instance (att_call a)) = Some o
         /\ readResizeOptions o = Some spec
         /\ resizePlanner (requested (targetWidth (loadConfig [])))
              (requested (targetHeight (loadConfig [])))
              (MAX_DIMENSION (loadConfig [])) = Some spec
         /\ spec = {| spec_width := Some 1920; spec_height := Some 1920;
                      fitMode := containNoEnlarge;
                      enlargementAllowed := false |})
    (attemptsOf (trace (main smallWorld []))).
Proof.
  eapply Forall_impl; [|apply (every_encode_resized smallWorld [])].
  intros a (o & spec & H1 & H2 & H3 & H4).
  exists o, spec. repeat (split; [assumption|]). apply H4. reflexivity.
Defined.

(** ** The configuration in closed form *)

Lemma startsWith_keys (arg : string) :
  (startsWith arg "w=" = true ->
   startsWith arg "h=" = false /\ startsWith arg "t=" = false)
  /\ (startsWith arg "h=" = true -> startsWith arg "t=" = false).
Proof.
  unfold startsWith. destruct arg as [|c r]; [split; discriminate|].
  cbn [prefix].
  destruct (ascii_dec "w" c) as [<- | Hw].
  - split; [intros _; split; reflexivity | discriminate].
  - split; [discriminate|].
    destruct (ascii_dec "h" c) as [<- | Hh]; [reflexivity | discriminate].
Qed.

Lemma parseArgs_closed (args : list string) : forall c,
  let c' := fold_left parseArg args c in
  targetWidth c'
  = match lastWith "w=" args with
    | Some a => Some (parseInt (valueOf a))
    | None => targetWidth c
    end
  /\ targetHeight c'
     = match lastWith "h=" args with
       | Some a => Some (parseInt (valueOf a))
       | None => targetHeight c
       end
  /\ targetFormat c'
     = match lastWith "t=" args with
       | Some a => Some (toLowerCase (valueOf a))
       | None => targetFormat c
       end.
Proof.
  induction args as [|a rest IH]; intros c; [repeat split|].
  cbv zeta. cbn [fold_left lastWith].
  destruct (IH (parseArg c a)) as (Hw & Hh & Ht). cbv zeta in Hw, Hh, Ht.
  rewrite Hw, Hh, Ht. clear Hw Hh Ht IH.
  destruct (startsWith_keys a) as [Kw Kh].
  unfold parseArg. fold (valueOf a).
  destruct (startsWith a "w=") eqn:Ew.
  { destruct (Kw eq_refl) as [-> ->]. cbn [targetWidth targetHeight targetFormat].
    repeat split; destruct (lastWith _ rest); reflexivity. }
  destruct (startsWith a "h=") eqn:Eh.
  { rewrite (Kh eq_refl). cbn [targetWidth targetHeight targetFormat].
    repeat split; destruct (lastWith _ rest); reflexivity. }
  destruct (startsWith a "t=") eqn:Et;
    cbn [targetWidth targetHeight targetFormat];
    repeat split; destruct (lastWith _ rest); reflexivity.
Qed.

(** X12.  The configuration depends only on the last argument that starts
    with [w=], the last that starts with [h=] and the last that starts
    with [t=]: the width and the height are [parseInt] of their values,
    the format is the value in lower case, every other argument is
    ignored, and [MAX_DIMENSION] is 0 when the width or the height is
    truthy and 1920 otherwise. *)
Theorem configuration_closed_form (args : list string) :
  targetWidth (loadConfig args)
  = option_map (fun a => parseInt (valueOf a)) (lastWith "w=" args)
  /\ targetHeight (loadConfig args)
     = option_map (fun a => parseInt (valueOf a)) (lastWith "h=" args)
  /\ targetFormat (loadConfig args)
     = option_map (fun a => toLowerCase (valueOf a)) (lastWith "t=" args)
  /\ MAX_DIMENSION (loadConfig args)
     = (if truthy_num (targetWidth (loadConfig args))
           || truthy_num (targetHeight (loadConfig args))
        then 0 else 1920).
Proof.
  destruct (parseArgs_closed args initialConfig) as (Hw & Hh & Ht).
  cbv zeta in Hw, Hh, Ht. cbn [initialConfig targetWidth targetHeight
                                targetFormat] in Hw, Hh, Ht.
  unfold loadConfig.
  destruct (truthy_num (targetWidth (fold_left parseArg args initialConfig))
            || truthy_num
                 (targetHeight (fold_left parseArg args initialConfig)))
    eqn:E; cbn [targetWidth targetHeight targetFormat MAX_DIMENSION];
    rewrite ?E, ?parseArgs_MAX_DIMENSION, Hw, Hh, Ht;
    repeat split; destruct (lastWith _ args); reflexivity.
Qed.

(** ** A result that is not smaller *)

(** X13.  When the search of a file ends normally with a size that is not
    below the original size, the buffer has been written over the file all
    the same, while the batch loop reports the file as failed and leaves
    its counters as they were. *)
Theorem not_smaller_still_written (sys : System) (cfg : Config)
    (file : string) (c : Counts) (newSize : Z) :
  skips cfg file (readSize sys file) = false ->
  result (compressWithRatio_try sys cfg file (readSize sys file))
  = Some newSize ->
  readSize sys file <= newSize ->
  result (processFile sys cfg file c) = Some c
  /\ In (ev_console (msg_failed file)) (trace (processFile sys cfg file c))
  /\ exists b,
      buf_length b = newSize
      /\ writeFileSync sys (newFilePathOf cfg file) b = true
      /\ In (ev_write (newFilePathOf cfg file) b)
           (trace (processFile sys cfg file c)).
Proof.
  intros Hs Hres Hle.
  destruct (compressWithRatio_normal sys cfg file _ _ Hres)
    as (Hr & l & a & b & _ & _ & Hb & _ & _ & Hops & Hw).
  destruct (processFile_cases sys cfg file c)
    as [(_ & Hs' & _) | [(_ & Hs' & _) | (_ & _ & n & Hn & ->)]];
    try congruence.
  rewrite Hr in Hn. injection Hn as <-.
  assert (Hlt : (newSize <? readSize sys file) = false)
    by (apply Z.ltb_ge; exact Hle).
  rewrite Hlt. cbn [result trace fst snd].
  split; [reflexivity|]. split.
  - apply in_or_app. right. right. apply in_or_app. right. now left.
  - exists b. split; [exact Hb|]. split; [exact Hw|].
    apply in_or_app. right. right. apply in_or_app. left.
    assert (Hin : In (ev_write (newFilePathOf cfg file) b)
                    (fileOps (trace (compressWithRatio sys cfg file
                                       (readSize sys file)))))
      by (rewrite Hops; now left).
    unfold fileOps in Hin. now apply filter_In in Hin as [Hin _].
Qed.

Lemma not_smaller_still_written_witness :
  result (processFile growingWorld initialConfig "a.png"
            {| processedCount := 0; skippedCount := 0 |})
  = Some {| processedCount := 0; skippedCount := 0 |}
  /\ In (ev_console (msg_failed "a.png"))
       (trace (processFile growingWorld initialConfig "a.png"
                 {| processedCount := 0; skippedCount := 0 |}))
  /\ exists b,
      buf_length b = 60000
      /\ writeFileSync growingWorld (newFilePathOf initialConfig "a.png") b
         = true
      /\ In (ev_write (newFilePathOf initialConfig "a.png") b)
           (trace (processFile growingWorld initialConfig "a.png"
                     {| processedCount := 0; skippedCount := 0 |})).
Proof.
  apply (not_smaller_still_written growingWorld initialConfig "a.png"
           {| processedCount := 0; skippedCount := 0 |} 60000).
  - reflexivity.
  - vm_compute. reflexivity.
  - vm_compute. discriminate.
Defined.

(** ** PNG compression levels *)

(** X14.  When the output format is PNG, the compression level given to
    the encode at position [n] is the level of the first attempt plus
    [n]: every refinement raises the level by exactly one. *)
Theorem png_level_by_position (sys : System) (cfg : Config)
    (filePath : string) (originalSize : Z) :
  (outputFormatOf cfg =? "png")%string = true ->
  Forall
    (fun a =>
       encoder (att_call a) = png
       /\ options (att_call a)
          = compressionLevel_opt
              ((100 - firstQuality originalSize) / 10 + att_n a))
    (attemptsOf (trace (compressWithRatio sys cfg filePath originalSize))).
Proof.
  intros Hpng.
  pose proof (compressWithRatio_calls sys cfg filePath originalSize) as Hc.
  pose proof (quality_positions_aux sys cfg filePath originalSize) as Hp.
  rewrite Forall_forall in *. intros a Hin.
  destruct (Hc a Hin) as [inst [_ ->]]. destruct (Hp a Hin) as [Hq _].
  cbn [encoder options]. unfold encoderFor, optionsAt. rewrite Hpng.
  split; [reflexivity|]. f_equal. rewrite Hq.
  replace (100 - (firstQuality originalSize - 10 * att_n a))
    with (100 - firstQuality originalSize + att_n a * 10) by lia.
  apply Z.div_add. lia.
Qed.

Lemma png_level_by_position_witness :
  Forall
    (fun a =>
       encoder (att_call a) = png
       /\ options (att_call a)
          = compressionLevel_opt ((100 - firstQuality 10240000) / 10 + att_n a))
    (attemptsOf (trace (compressWithRatio stubbornWorld
                          (loadConfig ["t=png"]) "a.png" 10240000))).
Proof.
  apply (png_level_by_position stubbornWorld (loadConfig ["t=png"])).
  reflexivity.
Defined.

(** ** Directories with nothing to do *)

(** X15.  When the directory cannot be read the run prints its two
    opening lines, the line that tells which resize is in effect, and the
    error line, and does nothing else; when no entry passes the extension
    filter, as in an empty directory or one that holds only JPEG files, it
    prints the same three lines and then that no image was found, and does
    nothing else: no count of files found, no summary, no encode, no
    write.  In both cases [compressImages] returns normally. *)
Theorem nothing_to_do (sys : System) (cfg : Config) :
  (readdirSync sys "." = None ->
   compressImages sys cfg
   = ([ev_console msg_banner; ev_console msg_scanning;
       ev_console (resizeInfo cfg); ev_console msg_fatal], Some tt))
  /\ (forall files,
         readdirSync sys "." = Some files ->
         Forall (fun f => isImageFile f = false) files ->
         compressImages sys cfg
         = ([ev_console msg_banner; ev_console msg_scanning;
             ev_console (resizeInfo cfg); ev_console msg_none_found],
            Some tt)).
Proof.
  split.
  - intros Hd. unfold compressImages. rewrite Hd. reflexivity.
  - intros files Hd Hall. unfold compressImages. rewrite Hd.
    assert (E : filter isImageFile files = []).
    { clear Hd. induction Hall as [|f l Hf _ IH]; [reflexivity|].
      cbn [filter]. now rewrite Hf. }
    cbn [bind ret log emit app]. rewrite E. reflexivity.
Qed.

Lemma nothing_to_do_witness :
  compressImages (sampleSystem ["a.jpg"; "b.JPEG"; "notes.txt"] 500000
                    (fun _ => None)) initialConfig
  = ([ev_console msg_banner; ev_console msg_scanning;
      ev_console (resizeInfo initialConfig); ev_console msg_none_found],
     Some tt).
Proof.
  apply (proj2 (nothing_to_do
                  (sampleSystem ["a.jpg"; "b.JPEG"; "notes.txt"] 500000
                     (fun _ => None)) initialConfig)
           ["a.jpg"; "b.JPEG"; "notes.txt"]).
  - reflexivity.
  - repeat constructor.
Defined.
